(** * Session store and form-data accumulator of the AI form assistant

    A shallow embedding of [services/ai.service.js] (class [AIService]),
    [services/session.service.js] (class [SessionService]),
    [services/singleton.service.js] and the socket handlers of [index.js],
    followed by the properties of the schema validator, the gateway, the
    form-data accumulator, the session store, the expiry sweep, the
    singletons and the handlers.

    Modelling conventions.
    - JavaScript strings are [string]s; case mapping and white space are
      those of the ASCII range, other code units are left alone.
    - Values that cross the transport boundary (the payload of a socket
      event, a schema) are JSON-shaped [JsValue]s; inside the services a
      message is a string or absent.
    - The remote conversation API and [JSON.parse] are external: they are
      taken as parameters ([chat_sendMessage], [JSON_parse]).  The parsed
      payload follows the response schema declared in [createChat]:
      [ai_message], [key] and [value] are strings, possibly absent.
    - Plain JS objects used as dictionaries are [gmap string _]; the
      accumulated form data of a session is an object on a heap, so that
      references to it can be shared.  The [sessions] Map is a [gmap] too:
      the order in which a JS Map lists its entries is not modelled.
    - A function that can throw returns an [Outcome]; the state is passed
      explicitly, and what [uuidv4()], [createChat] and [new Date()] return
      is supplied by the caller.
    - [Date] values are integer millisecond counts.  The expiry sweep is
      embedded twice: in [Doubles] as the code computes it, in binary64
      arithmetic, and in [SessionService] with the quotient taken exactly,
      in [Q]; the two agree when the threshold is a whole number of
      minutes. *)

From Stdlib Require Import ZArith QArith String Ascii List Bool Lia.
From Stdlib Require Import Floats.PrimFloat Floats.FloatOps Floats.SpecFloat.
From Stdlib Require Import Numbers.Cyclic.Int63.Uint63.
From stdpp Require Import gmap strings list fin_maps.

Set Warnings "-register-all".
Local Open Scope string_scope.

(** ** JavaScript strings *)

Module JsString.

Definition is_upper (c : ascii) : bool :=
  let n := nat_of_ascii c in (65 <=? n)%nat && (n <=? 90)%nat.

Definition lower_char (c : ascii) : ascii :=
  if is_upper c then ascii_of_nat (nat_of_ascii c + 32) else c.

(** [s.toLowerCase()], on the letters of the ASCII range. *)
Fixpoint toLowerCase (s : string) : string :=
  match s with
  | EmptyString => EmptyString
  | String c s' => String (lower_char c) (toLowerCase s')
  end.

(** [s.startsWith(p)] *)
Definition startsWith (s p : string) : bool := String.prefix p s.

(** [s.includes(needle)]: [needle] starts at some position of [s]. *)
Fixpoint includes (s needle : string) : bool :=
  if String.prefix needle s then true
  else match s with
       | EmptyString => false
       | String _ s' => includes s' needle
       end.

(** White space removed by [trim] (tab, line feed, vertical tab, form
    feed, carriage return, space). *)
Definition is_space (c : ascii) : bool :=
  let n := nat_of_ascii c in ((9 <=? n)%nat && (n <=? 13)%nat) || (n =? 32)%nat.

Fixpoint trimStart (s : string) : string :=
  match s with
  | EmptyString => EmptyString
  | String c s' => if is_space c then trimStart s' else s
  end.

Fixpoint trimEnd (s : string) : string :=
  match s with
  | EmptyString => EmptyString
  | String c s' =>
      match trimEnd s' with
      | EmptyString => if is_space c then EmptyString else String c EmptyString
      | t => String c t
      end
  end.

(** [s.trim()], for the white space of the ASCII range. *)
Definition trim (s : string) : string := trimEnd (trimStart s).

(** Truthiness of a string: the empty string is falsy. *)
Definition truthy (s : string) : bool :=
  match s with EmptyString => false | _ => true end.

(** Truthiness of a possibly absent string ([undefined] is falsy). *)
Definition truthy_opt (o : option string) : bool :=
  match o with Some s => truthy s | None => false end.

End JsString.

(** ** JSON-shaped JavaScript values *)

Inductive JsValue : Type :=
| JsUndefined
| JsNull
| JsBool (b : bool)
| JsNumber (q : Q)
| JsString (s : string)
| JsArray (items : list JsValue)
| JsObject (props : gmap string JsValue).

Module Js.

(** [!!v] *)
Definition truthy (v : JsValue) : bool :=
  match v with
  | JsUndefined | JsNull => false
  | JsBool b => b
  | JsNumber q => negb (Qeq_bool q 0)
  | JsString s => JsString.truthy s
  | JsArray _ | JsObject _ => true
  end.

(** [typeof v] *)
Definition typeof (v : JsValue) : string :=
  match v with
  | JsUndefined => "undefined"
  | JsNull => "object"
  | JsBool _ => "boolean"
  | JsNumber _ => "number"
  | JsString _ => "string"
  | JsArray _ | JsObject _ => "object"
  end.

(** [Array.isArray(v)] *)
Definition isArray (v : JsValue) : bool :=
  match v with JsArray _ => true | _ => false end.

(** [Object.keys(o)] of a plain object: its own property names. *)
Definition keys (props : gmap string JsValue) : list string :=
  (map_to_list props).*1.

(** [o[k]] on a plain object, for an own property name or a name that
    is not inherited: [undefined] when absent. *)
Definition get (props : gmap string JsValue) (k : string) : JsValue :=
  default JsUndefined (props !! k).

(** [xs.includes(x)] on an array of strings. *)
Definition includes (xs : list string) (x : string) : bool :=
  existsb (String.eqb x) xs.

(** [obj[k] = v] on a plain object whose prototype is [Object.prototype]
    and whose values are strings.  Every name creates or overwrites an
    own property, except ["__proto__"]: that name is an accessor of
    [Object.prototype] whose setter ignores a value that is neither an
    object nor [null], so nothing is stored. *)
Definition set (obj : gmap string string) (k v : string) : gmap string string :=
  if String.eqb k "__proto__" then obj else <[k := v]> obj.

(** [Object.assign(target, source)]: every own property of [source] is
    assigned to [target] with [target[k] = v]. *)
Definition assign (target source : gmap string string) : gmap string string :=
  map_fold (fun k v acc => set acc k v) target source.

End Js.

(** ** Values exchanged with the conversation API *)

(** A thrown value: an [Error] with its message, or anything else. *)
Inductive Thrown : Type :=
| ThrownError (message : string)
| ThrownOther.

(** Outcome of a call that either throws or returns. *)
Definition Outcome (A : Type) : Type := (Thrown + A)%type.

(** One extracted field, [{key, value}]; [None] is an absent property. *)
Record Field : Type := mkField {
  key : option string;
  value : option string
}.

(** The [form_data] property of a turn result. *)
Inductive FormData : Type :=
| FormDataArray (fields : list Field)          (* current protocol shape *)
| FormDataObject (props : gmap string string)  (* legacy flat object *)
| FormDataOther.                               (* absent, or not an object *)

(** A parsed turn result: a JSON string, or an object with [ai_message]
    and [form_data]. *)
Inductive TurnResult : Type :=
| PlainString (s : string)
| Structured (ai_message : option string) (form_data : FormData).

(** The opaque conversation handle returned by [genAI.chats.create]. *)
Definition ChatHandle : Type := nat.

(** What the remote call [chat.sendMessage] does: it rejects with a thrown
    value or resolves to a response whose [text] may be absent. *)
Inductive ChatReply : Type :=
| ChatReject (error : Thrown)
| ChatResolve (text : option string).

(** ** services/ai.service.js *)

Module AIService.

Definition validTypes : list string :=
  ["string"; "number"; "boolean"; "date"; "email"; "phone"; "url"].

(** [validateSchema(schema)] *)
Definition validateSchema (schema : JsValue) : bool :=
  if negb (Js.truthy schema)
     || negb (String.eqb (Js.typeof schema) "object")
     || Js.isArray schema
  then false
  else
    match schema with
    | JsObject props =>
        let fields := Js.keys props in
        if (length fields =? 0)%nat then false
        else
          forallb
            (fun field =>
               let type := Js.get props field in
               match type with
               | JsString t => Js.includes validTypes (JsString.toLowerCase t)
               | _ => false   (* typeof type !== "string" *)
               end)
            fields
    | _ => false   (* not reached: excluded by the guard above *)
    end.

(** The body of the [forEach] callback that auto-formats one field. *)
Definition formatField (field : Field) : Field :=
  match key field, value field with
  | Some k, Some v =>
      if JsString.truthy k && JsString.truthy v then
        let fieldLower := JsString.toLowerCase k in
        if JsString.includes fieldLower "url"
           || JsString.includes fieldLower "profile"
           || JsString.includes fieldLower "link"
           || JsString.includes fieldLower "website"
        then
          if negb (JsString.startsWith v "http")
          then mkField (key field) (Some ("https://" ++ v))
          else field
        else field
      else field
  | _, _ => field
  end.

(** Auto-format URLs for the array format. *)
Definition autoFormat (parsedResponse : TurnResult) : TurnResult :=
  match parsedResponse with
  | Structured ai_message (FormDataArray fields) =>
      Structured ai_message (FormDataArray (map formatField fields))
  | _ => parsedResponse
  end.

Definition required_message : string := "Chat instance and message are required".
Definition no_response_message : string := "No response received from AI".
Definition quota_message : string :=
  "AI service quota exceeded. Please try again later.".
Definition safety_message : string :=
  "Message flagged by safety filters. Please rephrase your message.".
Definition generic_message : string :=
  "Failed to get AI response. Please try again.".

(** An [AIService] object: what its constructor keeps of [apiKey]. *)
Record Instance : Type := mkInstance {
  apiKey : string
}.

(** [new AIService(apiKey)]; [None] is an absent key. *)
Definition construct (key : option string) : Outcome Instance :=
  match key with
  | Some k =>
      if negb (JsString.truthy k) || String.eqb k "YOUR_API_KEY"
      then inl (ThrownError "Valid Google AI API key is required")
      else inr (mkInstance k)
  | None => inl (ThrownError "Valid Google AI API key is required")
  end.

(** [getInitialMessage()] *)
Definition getInitialMessage : TurnResult :=
  Structured
    (Some "Hello! I'm here to help you fill out this form. Let's get started!")
    (FormDataArray []).

(** The result of [sendMessage]: the message handed to the remote
    conversation, if the call got that far, and the outcome. *)
Record Sent : Type := mkSent {
  forwarded : option string;
  outcome : Outcome TurnResult
}.

Section Gateway.

Variable chat_sendMessage : ChatHandle -> string -> ChatReply.
Variable JSON_parse : string -> option TurnResult.

(** The body of the outer [try] of [sendMessage]. *)
Definition sendMessage_try (chat : option ChatHandle) (message : option string)
  : Sent :=
  match chat, message with
  | Some c, Some m =>
      if negb (JsString.truthy m)
      then mkSent None (inl (ThrownError required_message))
      else
        let sent := JsString.trim m in
        match chat_sendMessage c sent with
        | ChatReject error => mkSent (Some sent) (inl error)
        | ChatResolve text =>
            match text with
            | Some responseText =>
                if negb (JsString.truthy responseText)
                then mkSent (Some sent) (inl (ThrownError no_response_message))
                else
                  match JSON_parse responseText with
                  | Some parsedResponse =>
                      mkSent (Some sent) (inr (autoFormat parsedResponse))
                  | None =>
                      (* catch (parseError) *)
                      mkSent (Some sent)
                        (inr (Structured (Some responseText) (FormDataArray [])))
                  end
            | None => mkSent (Some sent) (inl (ThrownError no_response_message))
            end
        end
  | _, _ => mkSent None (inl (ThrownError required_message))
  end.

(** The outer [catch (error)]: what is thrown to the caller instead. *)
Definition sendMessage_catch (error : Thrown) : Thrown :=
  match error with
  | ThrownError message =>
      if JsString.includes message "quota" then ThrownError quota_message
      else if JsString.includes message "safety" then ThrownError safety_message
      else ThrownError generic_message
  | ThrownOther => ThrownError generic_message
  end.

(** [sendMessage(chat, message)] *)
Definition sendMessage (chat : option ChatHandle) (message : option string)
  : Sent :=
  let r := sendMessage_try chat message in
  match outcome r with
  | inl error => mkSent (forwarded r) (inl (sendMessage_catch error))
  | inr response => r
  end.

(** [healthCheck()], on the handle [testChat] that
    [createChat({ test: "string" })] returns: [true] unless
    [sendMessage(testChat, "test")] throws. *)
Definition healthCheck (testChat : ChatHandle) : bool :=
  match outcome (sendMessage (Some testChat) (Some "test")) with
  | inl _ => false
  | inr _ => true
  end.

End Gateway.

End AIService.

(** ** services/session.service.js *)

Module SessionService.

(** Address of an accumulated-form-data object on the heap. *)
Definition loc : Type := nat.

(** A session record, as stored by [createSession]. *)
Record Session : Type := mkSession {
  id : string;
  schema : JsValue;
  chat : ChatHandle;
  createdAt : Z;
  accumulatedFormData : loc
}.

(** The service: the [sessions] map, and the objects that session
    records and results refer to. *)
Record State : Type := mkState {
  sessions : gmap string Session;
  heap : gmap loc (gmap string string)
}.

(** [new SessionService(aiService)] *)
Definition empty : State := mkState ∅ ∅.

(** The object a reference points to. *)
Definition deref (h : gmap loc (gmap string string)) (l : loc)
  : gmap string string :=
  default ∅ (h !! l).

(** The accumulated form data of session [sessionId], read through the
    session's own reference. *)
Definition accumulatedOf (st : State) (sessionId : string)
  : option (gmap string string) :=
  match sessions st !! sessionId with
  | Some session => Some (deref (heap st) (accumulatedFormData session))
  | None => None
  end.

(** [createSession(schema)].  The identifier drawn by [uuidv4()], the
    handle returned by [aiService.createChat(schema)] and the clock read
    by [new Date()] are supplied by the environment. *)
Definition createSession (st : State) (schema : JsValue)
    (uuid : string) (newChat : ChatHandle) (now : Z)
  : State * Outcome string :=
  if negb (AIService.validateSchema schema)
  then (st, inl (ThrownError "Invalid schema format"))
  else
    let chat := newChat in
    let sessionId := uuid in
    let data := fresh (dom (heap st)) in   (* accumulatedFormData: {} *)
    (mkState
       (<[sessionId := mkSession sessionId schema chat now data]> (sessions st))
       (<[data := ∅]> (heap st)),
     inr sessionId).

(** The [forEach] callback of the array branch. *)
Definition accumulateField (acc : gmap string string) (field : Field)
  : gmap string string :=
  match key field, value field with
  | Some k, Some v =>
      if JsString.truthy k && JsString.truthy v then Js.set acc k v else acc
  | _, _ => acc
  end.

(** [response.form_data.forEach(...)] on the accumulated object. *)
Definition accumulate (acc : gmap string string) (fields : list Field)
  : gmap string string :=
  fold_left accumulateField fields acc.

(** What [sendMessage] returns: the response itself, or a new object
    [{ai_message, form_data}] whose [form_data] is a new heap object. *)
Inductive Reply : Type :=
| Passthrough (response : TurnResult)
| Accumulated (ai_message : option string) (form_data : loc).

(** Store [obj] at [target] and return a spread copy [{...obj}] of it at a
    new address. *)
Definition store_and_copy (st : State) (target : loc) (obj : gmap string string)
  : State * loc :=
  let h := <[target := obj]> (heap st) in
  let copy := fresh (dom h) in
  (mkState (sessions st) (<[copy := obj]> h), copy).

(** The statements of [sendMessage] that follow the [await]: the
    form-data accumulator, applied to the gateway's [response]. *)
Definition accumulator (st : State) (session : Session) (response : TurnResult)
  : State * Reply :=
  match response with
  | PlainString _ => (st, Passthrough response)
  | Structured ai_message (FormDataArray fields) =>
      let target := accumulatedFormData session in
      let acc := accumulate (deref (heap st) target) fields in
      let '(st', copy) := store_and_copy st target acc in
      (st', Accumulated ai_message copy)
  | Structured ai_message (FormDataObject props) =>
      let target := accumulatedFormData session in
      let acc := Js.assign (deref (heap st) target) props in
      let '(st', copy) := store_and_copy st target acc in
      (st', Accumulated ai_message copy)
  | Structured _ FormDataOther => (st, Passthrough response)
  end.

(** The result of [sendMessage]: the state afterwards, the message handed
    to the remote conversation (if any), and what is returned or thrown. *)
Record Sent : Type := mkSent {
  state_after : State;
  forwarded : option string;
  outcome : Outcome Reply
}.

Section Gateway.

Variable chat_sendMessage : ChatHandle -> string -> ChatReply.
Variable JSON_parse : string -> option TurnResult.

(** [sendMessage(sessionId, message)] *)
Definition sendMessage (st : State) (sessionId : string)
    (message : option string) : Sent :=
  match sessions st !! sessionId with
  | None => mkSent st None (inl (ThrownError "Session not found"))
  | Some session =>
      let r := AIService.sendMessage chat_sendMessage JSON_parse
                 (Some (chat session)) message in
      match AIService.outcome r with
      | inl error => mkSent st (AIService.forwarded r) (inl error)
      | inr response =>
          let '(st', reply) := accumulator st session response in
          mkSent st' (AIService.forwarded r) (inr reply)
      end
  end.

End Gateway.

(** [deleteSession(sessionId)] *)
Definition deleteSession (st : State) (sessionId : string) : State * bool :=
  (mkState (delete sessionId (sessions st)) (heap st),
   bool_decide (is_Some (sessions st !! sessionId))).

(** [hasSession(sessionId)] *)
Definition hasSession (st : State) (sessionId : string) : bool :=
  bool_decide (is_Some (sessions st !! sessionId)).

(** The object returned by [getSessionInfo]. *)
Record SessionInfo : Type := mkSessionInfo {
  info_id : string;
  info_schema : JsValue;
  info_createdAt : Z;
  info_accumulatedFormData : loc
}.

(** [getSessionInfo(sessionId)]; [None] is [null]. *)
Definition getSessionInfo (st : State) (sessionId : string) : option SessionInfo :=
  match sessions st !! sessionId with
  | Some session =>
      Some (mkSessionInfo (id session) (schema session) (createdAt session)
              (accumulatedFormData session))
  | None => None
  end.

(** [getSessionCount()] *)
Definition getSessionCount (st : State) : nat := size (sessions st).

(** [getAllSessionIds()]: the identifiers of the map, listed in the order
    of the [gmap] and not in the insertion order of the JS Map. *)
Definition getAllSessionIds (st : State) : list string :=
  (map_to_list (sessions st)).*1.

(** [(now - session.createdAt) / (1000 * 60)], taken exactly; see
    [Doubles.ageMinutes] for the quotient in binary64. *)
Definition ageMinutes (now : Z) (session : Session) : Q :=
  (inject_Z (now - createdAt session) / inject_Z (1000 * 60))%Q.

(** [ageMinutes > maxAgeMinutes], on the exact quotient. *)
Definition expired (now : Z) (maxAgeMinutes : Q) (session : Session) : bool :=
  negb (Qle_bool (ageMinutes now session) maxAgeMinutes).

(** [cleanupExpiredSessions(maxAgeMinutes = 60)], with the clock read by
    [new Date()] supplied by the environment. *)
Definition cleanupExpiredSessions (st : State) (maxAgeMinutes : option Q)
    (now : Z) : State * nat :=
  let maxAge := default 60%Q maxAgeMinutes in
  let expiredSessions :=
    (List.filter (fun entry => expired now maxAge entry.2)
       (map_to_list (sessions st))).*1 in
  (mkState
     (fold_left (fun m sessionId => delete sessionId m) expiredSessions (sessions st))
     (heap st),
   length expiredSessions).

(** A statement [obj[k] = v] executed by a holder of the reference [obj]. *)
Definition assignThrough (st : State) (obj : loc) (k v : string) : State :=
  mkState (sessions st) (<[obj := Js.set (deref (heap st) obj) k v]> (heap st)).

End SessionService.

(** ** The expiry sweep in binary64 arithmetic *)

Module Doubles.

(** The double nearest to an integer; time values and their differences
    are within the range of [Date] (below 2^63 in absolute value). *)
Definition of_Z (z : Z) : float :=
  if (z <? 0)%Z
  then PrimFloat.opp (PrimFloat.of_uint63 (Uint63.of_Z (- z)))
  else PrimFloat.of_uint63 (Uint63.of_Z z).

(** [(now - session.createdAt) / (1000 * 60)] *)
Definition ageMinutes (now : Z) (session : SessionService.Session) : float :=
  PrimFloat.div (of_Z (now - SessionService.createdAt session))
    (PrimFloat.mul 1000 60).

(** [ageMinutes > maxAgeMinutes] *)
Definition expired (now : Z) (maxAgeMinutes : float)
    (session : SessionService.Session) : bool :=
  PrimFloat.ltb maxAgeMinutes (ageMinutes now session).

(** [cleanupExpiredSessions(maxAgeMinutes = 60)], with the clock read by
    [new Date()] supplied by the environment. *)
Definition cleanupExpiredSessions (st : SessionService.State)
    (maxAgeMinutes : option float) (now : Z) : SessionService.State * nat :=
  let maxAge := default 60%float maxAgeMinutes in
  let expiredSessions :=
    (List.filter (fun entry => expired now maxAge entry.2)
       (map_to_list (SessionService.sessions st))).*1 in
  (SessionService.mkState
     (fold_left (fun m sessionId => delete sessionId m) expiredSessions
        (SessionService.sessions st))
     (SessionService.heap st),
   length expiredSessions).

(** The number a finite double stands for. *)
Definition value_of (x : float) : option Q :=
  match Prim2SF x with
  | S754_zero _ => Some 0%Q
  | S754_finite negative m e =>
      Some ((if negative then -1 else 1) * inject_Z (Z.pos m) * Qpower 2 e)%Q
  | _ => None
  end.

End Doubles.

(** ** services/singleton.service.js *)

Module Singleton.

(** The two module-level variables; the session service is the store it
    holds. *)
Record Services : Type := mkServices {
  aiServiceInstance : option AIService.Instance;
  sessionServiceInstance : option SessionService.State
}.

(** The module as loaded: both variables are [null]. *)
Definition initial : Services := mkServices None None.

(** [getAIService()]; [env_key] is [process.env.GEMINI_API_KEY]. *)
Definition getAIService (env_key : option string) (sv : Services)
  : Services * Outcome AIService.Instance :=
  match aiServiceInstance sv with
  | Some ai => (sv, inr ai)
  | None =>
      if negb (JsString.truthy_opt env_key)
      then (sv, inl (ThrownError "GEMINI_API_KEY environment variable is required"))
      else
        match AIService.construct env_key with
        | inl error => (sv, inl error)
        | inr ai => (mkServices (Some ai) (sessionServiceInstance sv), inr ai)
        end
  end.

(** [getSessionService()] *)
Definition getSessionService (env_key : option string) (sv : Services)
  : Services * Outcome SessionService.State :=
  match sessionServiceInstance sv with
  | Some store => (sv, inr store)
  | None =>
      match getAIService env_key sv with
      | (sv', inl error) => (sv', inl error)
      | (sv', inr _) =>
          (mkServices (aiServiceInstance sv') (Some SessionService.empty),
           inr SessionService.empty)
      end
  end.

(** [resetServices()] *)
Definition resetServices (sv : Services) : Services := mkServices None None.

(** [areServicesReady()] *)
Definition areServicesReady (sv : Services) : bool :=
  match aiServiceInstance sv, sessionServiceInstance sv with
  | Some _, Some _ => true
  | _, _ => false
  end.

(** [initializeServices()] *)
Definition initializeServices (env_key : option string) (sv : Services)
  : Services * bool :=
  match getAIService env_key sv with
  | (sv1, inl _) => (sv1, false)
  | (sv1, inr _) =>
      match getSessionService env_key sv1 with
      | (sv2, inl _) => (sv2, false)
      | (sv2, inr _) => (sv2, true)
      end
  end.

End Singleton.

(** ** index.js: the socket event handlers *)

Module Server.

(** The [formData] carried by an emitted event. *)
Inductive Payload : Type :=
| PayloadRef (obj : SessionService.loc)   (* the object at [obj] *)
| PayloadEmpty                            (* the literal [{}] *)
| PayloadOr (form_data : FormData).       (* [form_data || {}] *)

(** The events a handler emits on the socket. *)
Inductive Event : Type :=
| SessionCreated (sessionId : string) (initialMessage : option string)
    (formData : Payload)
| Typing (on : bool)
| MessageResponse (response : option string) (formData : Payload)
| SessionEnded
| ErrorEvent (message : option string).

(** [error.message]; a thrown value that is not an [Error] has none. *)
Definition message_of (error : Thrown) : option string :=
  match error with
  | ThrownError message => Some message
  | ThrownOther => None
  end.

(** [.ai_message] of a turn result that is an object. *)
Definition ai_message_of (r : TurnResult) : option string :=
  match r with
  | PlainString _ => None
  | Structured ai_message _ => ai_message
  end.


(** The argument of [sessions.get] and [sessions.delete] as a key of the
    map: the keys are strings, so any other value is the key of nothing. *)
Definition as_key (v : JsValue) : option string :=
  match v with
  | JsString s => Some s
  | _ => None
  end.

(** The [message] argument as the gateway sees it.  A value that is not a
    string never reaches the remote conversation: a falsy one fails the
    check, a truthy one has no [trim], and the [TypeError] thrown inside
    the [try] comes out as the generic failure, as for an absent message. *)
Definition as_message (v : JsValue) : option string :=
  match v with
  | JsString s => Some s
  | _ => None
  end.

Section Handlers.

(** The text of the engine's [TypeError] for reading property [k] of a
    value that is [undefined] or [null]. *)
Variable typeErrorMessage : JsValue -> string -> string.

Variable chat_sendMessage : ChatHandle -> string -> ChatReply.
Variable JSON_parse : string -> option TurnResult.

(** [data.k], for one of the names [schema], [sessionId], [message]:
    reading a property of [undefined] or [null] throws; a value that is
    not an object has no such property. *)
Definition prop (data : JsValue) (k : string) : Outcome JsValue :=
  match data with
  | JsUndefined | JsNull => inl (ThrownError (typeErrorMessage data k))
  | JsObject props => inr (Js.get props k)
  | _ => inr JsUndefined
  end.

(** Handler of "create-session". *)
Definition onCreateSession (st : SessionService.State) (data : JsValue)
    (uuid : string) (newChat : ChatHandle) (now : Z)
  : SessionService.State * list Event :=
  match prop data "schema" with
  | inl error => (st, [ErrorEvent (message_of error)])
  | inr schema =>
      match SessionService.createSession st schema uuid newChat now with
      | (st', inr sessionId) =>
          let initialMessage := AIService.getInitialMessage in
          (st', [SessionCreated sessionId (ai_message_of initialMessage)
                   (match initialMessage with
                    | Structured _ form_data => PayloadOr form_data
                    | PlainString _ => PayloadEmpty
                    end)])
      | (st', inl error) => (st', [ErrorEvent (message_of error)])
      end
  end.

(** [sessionService.sendMessage(data.sessionId, data.message)] *)
Definition sendMessage (st : SessionService.State) (sessionId message : JsValue)
  : SessionService.Sent :=
  match as_key sessionId with
  | Some key =>
      SessionService.sendMessage chat_sendMessage JSON_parse st key
        (as_message message)
  | None => SessionService.mkSent st None (inl (ThrownError "Session not found"))
  end.


(** Handler of "end-session". *)
Definition onEndSession (st : SessionService.State) (data : JsValue)
  : SessionService.State * list Event :=
  match prop data "sessionId" with
  | inl error => (st, [ErrorEvent (message_of error)])
  | inr sessionId =>
      match as_key sessionId with
      | Some key =>
          let '(st', deleted) := SessionService.deleteSession st key in
          if deleted then (st', [SessionEnded])
          else (st', [ErrorEvent (Some "Session not found")])
      | None => (st, [ErrorEvent (Some "Session not found")])
      end
  end.

End Handlers.

End Server.

(** ** Notions used to state the properties *)

(** Two characters are the same letter up to case: they are equal, or they
    are the upper-case and lower-case forms of one of the 26 letters. *)
Definition same_letter (a b : ascii) : Prop :=
  a = b \/
  exists i, (i < 26)%nat /\
    (a = ascii_of_nat (65 + i) \/ a = ascii_of_nat (97 + i)) /\
    (b = ascii_of_nat (65 + i) \/ b = ascii_of_nat (97 + i)).

(** Equality of strings up to the case of letters. *)
Inductive caseless : string -> string -> Prop :=
| caseless_nil : caseless EmptyString EmptyString
| caseless_cons a b s t :
    same_letter a b -> caseless s t -> caseless (String a s) (String b t).

(** [s] contains [w] as a substring, up to the case of letters. *)
Definition contains_caseless (s w : string) : Prop :=
  exists pre mid post, s = pre ++ mid ++ post /\ caseless mid w.

(** A schema as the validator accepts it: a plain object, not an array,
    with at least one field, each field declared with one of the seven type
    tags up to case. *)
Definition well_formed_schema (schema : JsValue) : Prop :=
  exists props,
    schema = JsObject props /\
    props <> ∅ /\
    forall field type, props !! field = Some type ->
      exists t tag,
        type = JsString t /\
        In tag ["string"; "number"; "boolean"; "date"; "email"; "phone"; "url"] /\
        caseless t tag.

(** The value that record [field] gives to key [k]: its [value], when its
    [key] is [k] and key and value are both present and non-empty. *)
Definition gives (field : Field) (k : string) : option string :=
  match key field, value field with
  | Some k', Some v =>
      if decide (k' = k /\ k' <> "" /\ v <> "") then Some v else None
  | _, _ => None
  end.

(** The value a sequence of records assigns to key [k]: that of the last
    record of the sequence that gives one. *)
Fixpoint assigned (fields : list Field) (k : string) : option string :=
  match fields with
  | [] => None
  | field :: rest =>
      match assigned rest k with
      | Some v => Some v
      | None => gives field k
      end
  end.

(** Last write wins: an assigned value replaces the accumulated one. *)
Definition overwrite (assignedValue accumulatedValue : option string)
  : option string :=
  match assignedValue with
  | Some v => Some v
  | None => accumulatedValue
  end.

(** The keys whose values are auto-formatted: those that contain, up to
    case, one of "url", "profile", "link", "website". *)
Definition url_like (k : string) : Prop :=
  contains_caseless k "url" \/ contains_caseless k "profile" \/
  contains_caseless k "link" \/ contains_caseless k "website".

(** The value a formatted field ends up with: left alone when it starts
    with "http", prefixed with "https://" otherwise. *)
Definition with_scheme (v : string) : string :=
  if JsString.startsWith v "http" then v else "https://" ++ v.


(** A small scenario: one session and a scripted gateway. *)

Definition example_schema : JsValue := JsObject {[ "name" := JsString "string" ]}.

(** The store after one [createSession]. *)
Definition example_store : SessionService.State :=
  (SessionService.createSession SessionService.empty example_schema "s1" 7%nat 1000).1.

(** A conversation that answers every message with the message itself. *)
Definition echo_chat (c : ChatHandle) (m : string) : ChatReply := ChatResolve (Some m).

(** A stand-in for [JSON.parse] on the payloads of the scenario. *)
Definition example_parse (text : string) : option TurnResult :=
  if String.eqb text "hello" then Some (PlainString "Hello!")
  else if String.eqb text "a is 1" then
    Some (Structured (Some "ok") (FormDataArray [mkField (Some "a") (Some "1")]))
  else if String.eqb text "proto" then
    Some (Structured (Some "ok") (FormDataArray [mkField (Some "__proto__") (Some "x")]))
  else None.

Definition example_send (st : SessionService.State) (message : option string)
  : SessionService.Sent :=
  SessionService.sendMessage echo_chat example_parse st "s1" message.

(** A conversation that rejects every turn for lack of quota. *)
Definition quota_chat (c : ChatHandle) (m : string) : ChatReply :=
  ChatReject (ThrownError "Resource quota exhausted").

(** A conversation whose replies carry no text. *)
Definition silent_chat (c : ChatHandle) (m : string) : ChatReply :=
  ChatResolve None.

(** A stand-in for [JSON.parse] on a payload of the legacy shape. *)
Definition legacy_parse (text : string) : option TurnResult :=
  Some (Structured (Some "ok") (FormDataObject {[ "b" := "3" ]})).

(** The store of the scenario with a second session. *)
Definition two_sessions : SessionService.State :=
  (SessionService.createSession example_store example_schema "s2" 8%nat 2000).1.

(** C9 as stated: an empty or missing message on an existing session is
    refused with the message of the gateway's own check. *)
Definition empty_message_claim : Prop :=
  forall chat_sendMessage JSON_parse st sessionId session message,
    SessionService.sessions st !! sessionId = Some session ->
    message = None \/ message = Some "" ->
    let r :=
      SessionService.sendMessage chat_sendMessage JSON_parse st sessionId message in
    SessionService.outcome r
    = inl (ThrownError "Chat instance and message are required") /\
    SessionService.forwarded r = None /\
    SessionService.state_after r = st.

(** C3 as stated: assigning through the [accumulatedFormData] of the
    object returned by [getSessionInfo] leaves the session's own
    accumulated form data as it was. *)
Definition snapshot_claim : Prop :=
  forall st sessionId info k v,
    SessionService.getSessionInfo st sessionId = Some info ->
    SessionService.accumulatedOf
      (SessionService.assignThrough st (SessionService.info_accumulatedFormData info) k v)
      sessionId
    = SessionService.accumulatedOf st sessionId.

(** Every record is stored under its own [id]; the count is the number of
    identifiers listed; [hasSession] holds exactly of the identifiers
    listed. *)
Definition store_consistent (st : SessionService.State) : Prop :=
  (forall k session,
     SessionService.sessions st !! k = Some session -> SessionService.id session = k) /\
  SessionService.getSessionCount st = length (SessionService.getAllSessionIds st) /\
  (forall sessionId,
     SessionService.hasSession st sessionId = true
     <-> In sessionId (SessionService.getAllSessionIds st)).

(** C4 as stated: every session whose age, now minus creation time in
    minutes, exceeds the threshold is deleted by the sweep. *)
Definition exact_age_claim : Prop :=
  forall st threshold q now sessionId session,
    Doubles.value_of threshold = Some q ->
    SessionService.sessions st !! sessionId = Some session ->
    (q < inject_Z (now - SessionService.createdAt session) / inject_Z 60000)%Q ->
    SessionService.sessions
      (Doubles.cleanupExpiredSessions st (Some threshold) now).1 !! sessionId
    = None.

(** A store with one session, created at time 0. *)
Definition one_session : SessionService.State :=
  (SessionService.createSession SessionService.empty
     (JsObject {[ "name" := JsString "string" ]}) "s1" 7%nat 0).1.

(** Minutes as milliseconds. *)
Definition minutes (n : Z) : Z := n * 60000.


(** [s] contains [w] as a substring. *)
Definition contains (s w : string) : Prop :=
  exists pre post, s = pre ++ w ++ post.

(** A string made of white space only. *)
Fixpoint all_space (s : string) : bool :=
  match s with
  | EmptyString => true
  | String c s' => JsString.is_space c && all_space s'
  end.

Definition first_char (s : string) : option ascii :=
  match s with
  | EmptyString => None
  | String c _ => Some c
  end.

Fixpoint last_char (s : string) : option ascii :=
  match s with
  | EmptyString => None
  | String c EmptyString => Some c
  | String _ s' => last_char s'
  end.

(** A string that neither starts nor ends with white space. *)
Definition no_outer_space (s : string) : Prop :=
  (forall c, first_char s = Some c -> JsString.is_space c = false) /\
  (forall c, last_char s = Some c -> JsString.is_space c = false).

(** One of the three errors the gateway lets through. *)
Definition gateway_error (error : Thrown) : Prop :=
  error = ThrownError "AI service quota exceeded. Please try again later." \/
  error = ThrownError
            "Message flagged by safety filters. Please rephrase your message." \/
  error = ThrownError "Failed to get AI response. Please try again.".

(** A field came out of [formatField] as it went in, or with "https://"
    put in front of its value. *)
Definition same_or_prefixed (before after : Field) : Prop :=
  key after = key before /\
  (value after = value before \/
   exists v, value before = Some v /\ value after = Some ("https://" ++ v)).

(** The fields of an array-shaped turn result. *)
Definition fields_of (r : TurnResult) : list Field :=
  match r with
  | Structured _ (FormDataArray fields) => fields
  | _ => []
  end.

(** No two sessions share an accumulated-form-data object, and every such
    reference points to an object of the heap. *)
Definition heap_wf (st : SessionService.State) : Prop :=
  (forall k session,
     SessionService.sessions st !! k = Some session ->
     is_Some (SessionService.heap st !! SessionService.accumulatedFormData session)) /\
  (forall k1 k2 s1 s2,
     SessionService.sessions st !! k1 = Some s1 ->
     SessionService.sessions st !! k2 = Some s2 ->
     SessionService.accumulatedFormData s1 = SessionService.accumulatedFormData s2 ->
     k1 = k2).

(** Every stored session carries a schema that the validator accepts. *)
Definition schemas_valid (st : SessionService.State) : Prop :=
  forall k session,
    SessionService.sessions st !! k = Some session ->
    AIService.validateSchema (SessionService.schema session) = true.

(** Every entry of [after] is an entry of [before] or the key and value of
    one of the records, both non-empty. *)
Definition from_records (before after : gmap string string) (fields : list Field)
  : Prop :=
  forall k v, after !! k = Some v ->
    before !! k = Some v \/
    (k <> "" /\ v <> "" /\ In (mkField (Some k) (Some v)) fields).

(** ** Strings: case mapping and substrings *)

Section StringFacts.

Import JsString.

Lemma lower_char_upper i :
  (i < 26)%nat -> lower_char (ascii_of_nat (65 + i)) = ascii_of_nat (97 + i).
Proof.
  intros Hi. unfold lower_char, is_upper.
  rewrite nat_ascii_embedding by lia.
  replace ((65 <=? 65 + i)%nat && (65 + i <=? 90)%nat) with true.
  - f_equal. lia.
  - symmetry. apply andb_true_iff. split; apply Nat.leb_le; lia.
Qed.

Lemma lower_char_lower i :
  (i < 26)%nat -> lower_char (ascii_of_nat (97 + i)) = ascii_of_nat (97 + i).
Proof.
  intros Hi. unfold lower_char, is_upper.
  rewrite nat_ascii_embedding by lia.
  replace (97 + i <=? 90)%nat with false.
  - now rewrite andb_false_r.
  - symmetry. apply Nat.leb_gt. lia.
Qed.

Lemma same_letter_lower_char a : same_letter a (lower_char a).
Proof.
  unfold lower_char. destruct (is_upper a) eqn:Hup; [|now left].
  unfold is_upper in Hup. apply andb_true_iff in Hup as [Hlo Hhi].
  apply Nat.leb_le in Hlo, Hhi.
  right. exists (nat_of_ascii a - 65)%nat. split; [lia|]. split.
  - left. replace (65 + (nat_of_ascii a - 65))%nat with (nat_of_ascii a) by lia.
    now rewrite ascii_nat_embedding.
  - right. f_equal. lia.
Qed.

Lemma lower_char_same_letter a b :
  same_letter a b -> lower_char a = lower_char b.
Proof.
  intros [->|(i & Hi & Ha & Hb)]; [reflexivity|].
  destruct Ha as [-> | ->], Hb as [-> | ->];
    now rewrite ?lower_char_upper, ?lower_char_lower by assumption.
Qed.

Lemma caseless_toLowerCase s : caseless s (toLowerCase s).
Proof.
  induction s as [|c s IH]; simpl; constructor; auto using same_letter_lower_char.
Qed.

Lemma toLowerCase_caseless s t :
  caseless s t -> toLowerCase s = toLowerCase t.
Proof.
  induction 1 as [|a b s t Hab _ IH]; simpl; [reflexivity|].
  now rewrite (lower_char_same_letter a b Hab), IH.
Qed.

(** Comparison after [toLowerCase] is comparison up to case, against a
    word that is already in lower case. *)
Lemma toLowerCase_eq_iff s w :
  toLowerCase w = w -> (toLowerCase s = w <-> caseless s w).
Proof.
  intros Hw. split.
  - intros <-. apply caseless_toLowerCase.
  - intros H. now rewrite (toLowerCase_caseless _ _ H).
Qed.

Lemma toLowerCase_app s t :
  toLowerCase (s ++ t) = toLowerCase s ++ toLowerCase t.
Proof. induction s as [|c s IH]; simpl; [reflexivity|now rewrite IH]. Qed.

Lemma toLowerCase_split s a b :
  toLowerCase s = a ++ b ->
  exists sa sb, s = sa ++ sb /\ toLowerCase sa = a /\ toLowerCase sb = b.
Proof.
  revert s. induction a as [|c a IH]; intros s H.
  - exists EmptyString, s. auto.
  - destruct s as [|d s]; simpl in H; [discriminate|].
    injection H as Hc Hs. destruct (IH _ Hs) as (sa & sb & -> & Ha & Hb).
    exists (String d sa), sb. simpl. now rewrite Hc, Ha, Hb.
Qed.

Lemma prefix_cons c p d s :
  String.prefix (String c p) (String d s)
  = if ascii_dec c d then String.prefix p s else false.
Proof. reflexivity. Qed.

Lemma prefix_app p s :
  String.prefix p s = true <-> exists post, s = p ++ post.
Proof.
  revert s. induction p as [|c p IH]; intros s.
  - split; [intros _; now exists s|intros _; now destruct s].
  - destruct s as [|d s]; [split; [discriminate|intros [? ?]; discriminate]|].
    rewrite prefix_cons.
    destruct (ascii_dec c d) as [->|Hne]; split.
    + intros H. apply IH in H as [post ->]. now exists post.
    + intros [post H]. injection H as ->. apply IH. now exists post.
    + discriminate.
    + intros [post H]. injection H as -> _. contradiction.
Qed.

Lemma includes_unfold s needle :
  includes s needle
  = if String.prefix needle s then true
    else match s with
         | EmptyString => false
         | String _ s' => includes s' needle
         end.
Proof. destruct s; reflexivity. Qed.

Lemma includes_app s needle :
  includes s needle = true <-> exists pre post, s = pre ++ needle ++ post.
Proof.
  induction s as [|c s IH]; rewrite includes_unfold.
  - destruct (String.prefix needle "") eqn:Hp.
    + split; [intros _|reflexivity].
      apply prefix_app in Hp as [post ->]. now exists EmptyString, post.
    + split; [discriminate|]. intros (pre & post & H).
      destruct pre; simpl in H; [|discriminate].
      assert (String.prefix needle "" = true) by (apply prefix_app; eauto).
      congruence.
  - destruct (String.prefix needle (String c s)) eqn:Hp.
    + split; [intros _|reflexivity].
      apply prefix_app in Hp as [post ->]. now exists EmptyString, post.
    + rewrite IH. split.
      * intros (pre & post & ->). now exists (String c pre), post.
      * intros (pre & post & H). destruct pre as [|d pre]; simpl in H.
        -- assert (String.prefix needle (String c s) = true)
             by (apply prefix_app; eauto).
           congruence.
        -- injection H as _ ->. eauto.
Qed.

(** [key.toLowerCase().includes(w)] is containment up to case. *)
Lemma includes_toLowerCase s w :
  toLowerCase w = w ->
  (includes (toLowerCase s) w = true <-> contains_caseless s w).
Proof.
  intros Hw. rewrite includes_app. split.
  - intros (pre & post & H).
    apply toLowerCase_split in H as (sa & sb & -> & _ & H).
    apply toLowerCase_split in H as (sm & sp & -> & Hm & _).
    exists sa, sm, sp. split; [reflexivity|].
    apply toLowerCase_eq_iff; assumption.
  - intros (pre & mid & post & -> & H).
    exists (toLowerCase pre), (toLowerCase post).
    rewrite !toLowerCase_app. do 2 f_equal.
    apply toLowerCase_eq_iff; assumption.
Qed.

End StringFacts.

(** ** The schema validator *)

Lemma keys_In (props : gmap string JsValue) (field : string) :
  In field (Js.keys props) <-> is_Some (props !! field).
Proof.
  unfold Js.keys. rewrite <- list_elem_of_In, list_elem_of_fmap. split.
  - intros ([k v] & -> & H). apply elem_of_map_to_list in H. eauto.
  - intros [v H]. exists (field, v). split; [reflexivity|].
    now apply elem_of_map_to_list.
Qed.

Lemma keys_length_0 (props : gmap string JsValue) :
  (length (Js.keys props) =? 0)%nat = true <-> props = ∅.
Proof.
  unfold Js.keys. rewrite Nat.eqb_eq, length_fmap. split.
  - intros H. apply map_to_list_empty_iff. now apply nil_length_inv.
  - intros ->. now rewrite map_to_list_empty.
Qed.

Lemma includes_In (xs : list string) (x : string) :
  Js.includes xs x = true <-> In x xs.
Proof.
  unfold Js.includes. rewrite existsb_exists. split.
  - intros (y & Hy & Heq). apply String.eqb_eq in Heq. now subst.
  - intros H. exists x. split; [assumption|apply String.eqb_refl].
Qed.

Lemma validTypes_lower_case (tag : string) :
  In tag AIService.validTypes -> JsString.toLowerCase tag = tag.
Proof.
  unfold AIService.validTypes. simpl.
  intros H. repeat destruct H as [<-|H]; try reflexivity. contradiction.
Qed.

(** The declared type of one field passes the callback of [every] exactly
    when it is a string equal, up to case, to one of the seven tags. *)
Lemma declared_type_ok (type : JsValue) :
  match type with
  | JsString t => Js.includes AIService.validTypes (JsString.toLowerCase t)
  | _ => false
  end = true
  <-> exists t tag, type = JsString t /\ In tag AIService.validTypes /\ caseless t tag.
Proof.
  split.
  - destruct type as [| |b|q|s|items|props]; try discriminate.
    intros H. apply includes_In in H.
    exists s, (JsString.toLowerCase s). auto using caseless_toLowerCase.
  - intros (t & tag & -> & Htag & Hc). apply includes_In.
    apply toLowerCase_eq_iff in Hc; [|now apply validTypes_lower_case].
    now rewrite Hc.
Qed.

Lemma validateSchema_object (props : gmap string JsValue) :
  AIService.validateSchema (JsObject props)
  = if (length (Js.keys props) =? 0)%nat then false
    else forallb
           (fun field =>
              match Js.get props field with
              | JsString t => Js.includes AIService.validTypes (JsString.toLowerCase t)
              | _ => false
              end)
           (Js.keys props).
Proof. reflexivity. Qed.

Lemma validateSchema_non_object (schema : JsValue) :
  (forall props, schema <> JsObject props) ->
  AIService.validateSchema schema = false.
Proof.
  intros H. unfold AIService.validateSchema.
  destruct schema as [| |b|q|s|items|props];
    try (destruct (Js.truthy _); reflexivity).
  now destruct (H props).
Qed.

Lemma validateSchema_true (schema : JsValue) :
  AIService.validateSchema schema = true <-> well_formed_schema schema.
Proof.
  unfold well_formed_schema. split.
  - intros H.
    assert (exists props, schema = JsObject props) as [props ->].
    { destruct schema as [| |b|q|s|items|props]; eauto;
        rewrite validateSchema_non_object in H by discriminate; discriminate. }
    exists props. split; [reflexivity|].
    rewrite validateSchema_object in H.
    destruct (length (Js.keys props) =? 0)%nat eqn:Hlen; [discriminate|].
    split.
    + intros ->. apply not_true_iff_false in Hlen. apply Hlen.
      now apply keys_length_0.
    + intros field type Hf. rewrite forallb_forall in H.
      specialize (H field). unfold Js.get in H. rewrite Hf in H.
      apply declared_type_ok. apply H. apply keys_In. eauto.
  - intros (props & -> & Hne & Hall). rewrite validateSchema_object.
    destruct (length (Js.keys props) =? 0)%nat eqn:Hlen.
    + apply keys_length_0 in Hlen. contradiction.
    + apply forallb_forall. intros field Hin.
      apply keys_In in Hin as [type Hf]. unfold Js.get. rewrite Hf.
      apply declared_type_ok. eauto.
Qed.

Example validateSchema_examples :
  AIService.validateSchema
    (JsObject {[ "name" := JsString "String"; "mail" := JsString "EMAIL" ]}) = true /\
  AIService.validateSchema (JsObject {[ "name" := JsString "text" ]}) = false /\
  AIService.validateSchema (JsObject {[ "age" := JsNumber 5 ]}) = false /\
  AIService.validateSchema (JsObject ∅) = false /\
  AIService.validateSchema (JsArray [JsString "string"]) = false /\
  AIService.validateSchema (JsString "string") = false /\
  AIService.validateSchema JsNull = false /\
  AIService.validateSchema JsUndefined = false.
Proof. repeat split; vm_compute; reflexivity. Qed.

(** C2. The schema validator returns true exactly for a non-array object
    with at least one field all of whose declared types are, up to case,
    among the seven allowed tags; on every other input (an empty mapping,
    an array, a non-object, an unrecognised tag) it returns false: it is a
    total function and never raises. *)
Theorem validateSchema_spec (schema : JsValue) :
  (AIService.validateSchema schema = true <-> well_formed_schema schema) /\
  (AIService.validateSchema schema = false <-> ~ well_formed_schema schema).
Proof.
  split; [apply validateSchema_true|].
  rewrite <- validateSchema_true.
  destruct (AIService.validateSchema schema); split; congruence.
Qed.

(** The cases the validator rejects, one by one. *)
Lemma validateSchema_rejects :
  AIService.validateSchema (JsObject ∅) = false /\
  (forall items, AIService.validateSchema (JsArray items) = false) /\
  (forall schema, (forall props, schema <> JsObject props) ->
     AIService.validateSchema schema = false) /\
  (forall props field type,
     props !! field = Some type ->
     (forall t tag, type = JsString t -> In tag AIService.validTypes ->
        ~ caseless t tag) ->
     AIService.validateSchema (JsObject props) = false).
Proof.
  split; [reflexivity|]. split; [reflexivity|]. split.
  - intros schema H. apply not_true_iff_false. rewrite validateSchema_true.
    intros (props & -> & _). now apply (H props).
  - intros props field type Hf Hbad.
    apply not_true_iff_false. rewrite validateSchema_true.
    intros (props' & Heq & _ & Hall). injection Heq as <-.
    destruct (Hall _ _ Hf) as (t & tag & Ht & Htag & Hc).
    exact (Hbad t tag Ht Htag Hc).
Qed.

(** ** URL auto-formatting in the gateway *)

Lemma url_like_test (k : string) :
  let fieldLower := JsString.toLowerCase k in
  JsString.includes fieldLower "url" || JsString.includes fieldLower "profile"
  || JsString.includes fieldLower "link" || JsString.includes fieldLower "website"
  = true <-> url_like k.
Proof.
  unfold url_like. cbv zeta. rewrite !orb_true_iff.
  rewrite !includes_toLowerCase by reflexivity. tauto.
Qed.


Lemma url_like_nonempty (k : string) : url_like k -> JsString.truthy k = true.
Proof.
  destruct k; [|reflexivity]. intros H. apply url_like_test in H. discriminate.
Qed.

Lemma formatField_present (k v : string) :
  AIService.formatField (mkField (Some k) (Some v))
  = if JsString.truthy k && JsString.truthy v then
      if JsString.includes (JsString.toLowerCase k) "url"
         || JsString.includes (JsString.toLowerCase k) "profile"
         || JsString.includes (JsString.toLowerCase k) "link"
         || JsString.includes (JsString.toLowerCase k) "website"
      then
        if negb (JsString.startsWith v "http")
        then mkField (Some k) (Some ("https://" ++ v))
        else mkField (Some k) (Some v)
      else mkField (Some k) (Some v)
    else mkField (Some k) (Some v).
Proof. reflexivity. Qed.

Lemma formatField_url_like (k v : string) :
  v <> "" -> url_like k ->
  AIService.formatField (mkField (Some k) (Some v))
  = mkField (Some k) (Some (with_scheme v)).
Proof.
  intros Hv Hk. rewrite formatField_present. unfold with_scheme.
  rewrite (url_like_nonempty k Hk).
  assert (JsString.truthy v = true) as -> by (destruct v; [contradiction|reflexivity]).
  apply url_like_test in Hk. cbv zeta in Hk. rewrite Hk.
  now destruct (JsString.startsWith v "http").
Qed.


Lemma formatField_no_value (field : Field) :
  value field = None \/ value field = Some "" ->
  AIService.formatField field = field.
Proof.
  intros H. unfold AIService.formatField.
  destruct (key field) as [k|]; [|reflexivity].
  destruct H as [-> | ->]; [reflexivity|].
  now rewrite andb_false_r.
Qed.




(** The scheme prefix the code recognises is "http" as such: a value that
    starts with "http" but with neither "http://" nor "https://" is left
    without a scheme. *)
Example formatField_http_prefix :
  AIService.formatField (mkField (Some "url") (Some "httpbin.org/get"))
  = mkField (Some "url") (Some "httpbin.org/get") /\
  JsString.startsWith "httpbin.org/get" "http://" = false /\
  JsString.startsWith "httpbin.org/get" "https://" = false.
Proof. repeat split; reflexivity. Qed.

(** The two examples of the gateway contract. *)
Example formatField_profileUrl :
  AIService.formatField (mkField (Some "profileUrl") (Some "linkedin.com/x"))
  = mkField (Some "profileUrl") (Some "https://linkedin.com/x") /\
  AIService.formatField (mkField (Some "profileUrl") (Some "https://already.com"))
  = mkField (Some "profileUrl") (Some "https://already.com").
Proof. split; reflexivity. Qed.

(** ** The form-data accumulator *)

Section Accumulator.

Import SessionService.

Lemma truthy_nonempty (s : string) : JsString.truthy s = true <-> s <> "".
Proof. destruct s; simpl; split; congruence. Qed.

Lemma set_lookup (obj : gmap string string) (k v k' : string) :
  Js.set obj k v !! k'
  = if decide (k = k' /\ k <> "__proto__") then Some v else obj !! k'.
Proof.
  unfold Js.set. destruct (String.eqb_spec k "__proto__") as [->|Hne].
  - case_decide as H; [now destruct H|reflexivity].
  - case_decide as H.
    + destruct H as [-> _]. apply lookup_insert_eq.
    + apply lookup_insert_ne. tauto.
Qed.

(** One record: the key it gives a value to is overwritten, unless that
    key is ["__proto__"]; every other key is untouched. *)
Lemma accumulateField_lookup (acc : gmap string string) (field : Field) (k : string) :
  accumulateField acc field !! k
  = if decide (k = "__proto__") then acc !! k
    else overwrite (gives field k) (acc !! k).
Proof.
  unfold accumulateField, gives.
  destruct (key field) as [k'|]; [|now case_decide].
  destruct (value field) as [v|]; [|now case_decide].
  destruct (JsString.truthy k' && JsString.truthy v) eqn:Ht.
  - apply andb_true_iff in Ht as [Hk Hv].
    apply truthy_nonempty in Hk, Hv. rewrite set_lookup.
    repeat case_decide; simpl; try reflexivity; exfalso; intuition congruence.
  - assert (~ (k' <> "" /\ v <> "")) as Hn.
    { rewrite <- !truthy_nonempty. apply andb_false_iff in Ht. intros [? ?].
      destruct Ht; congruence. }
    repeat case_decide; simpl; try reflexivity; exfalso; intuition congruence.
Qed.

(** The whole sequence: every key other than ["__proto__"] ends with the
    value of the last record that gives it one, or keeps its accumulated
    value; ["__proto__"] is never stored. *)
Lemma accumulate_lookup (fields : list Field) (acc : gmap string string) (k : string) :
  accumulate acc fields !! k
  = if decide (k = "__proto__") then acc !! k
    else overwrite (assigned fields k) (acc !! k).
Proof.
  revert acc. induction fields as [|field rest IH]; intros acc.
  - simpl. now case_decide.
  - change (accumulate acc (field :: rest))
      with (accumulate (accumulateField acc field) rest).
    rewrite IH, accumulateField_lookup. simpl.
    case_decide; [reflexivity|]. now destruct (assigned rest k).
Qed.

Lemma accumulate_idempotent (acc : gmap string string) (fields : list Field) :
  accumulate (accumulate acc fields) fields = accumulate acc fields.
Proof.
  apply map_eq. intros k. rewrite (accumulate_lookup fields (accumulate _ _)).
  rewrite accumulate_lookup.
  case_decide; [reflexivity|]. now destruct (assigned fields k).
Qed.

Lemma store_and_copy_spec (st : State) (target : loc) (obj : gmap string string) :
  let '(st', copy) := store_and_copy st target obj in
  sessions st' = sessions st /\
  copy <> target /\ heap st !! copy = None /\
  heap st' !! copy = Some obj /\ heap st' !! target = Some obj /\
  forall l, l <> copy -> l <> target -> heap st' !! l = heap st !! l.
Proof.
  unfold store_and_copy. simpl.
  pose proof (is_fresh (dom (<[target := obj]> (heap st)))) as Hfresh.
  set (copy := fresh (dom (<[target := obj]> (heap st)))) in *.
  rewrite dom_insert_L in Hfresh.
  assert (copy <> target) as Hne by set_solver.
  assert (heap st !! copy = None) as Hnone
    by (apply not_elem_of_dom; set_solver).
  split; [reflexivity|]. split; [assumption|]. split; [assumption|].
  split; [apply lookup_insert_eq|]. split.
  - rewrite lookup_insert_ne by assumption. apply lookup_insert_eq.
  - intros l H1 H2. now rewrite !lookup_insert_ne by congruence.
Qed.

(** The array branch stores the merged object in the session's own
    object and returns a copy of it at a new address. *)
Lemma accumulator_array (st : State) (session : Session)
    (ai_message : option string) (fields : list Field) :
  let target := accumulatedFormData session in
  let merged := accumulate (deref (heap st) target) fields in
  exists st' copy,
    accumulator st session (Structured ai_message (FormDataArray fields))
    = (st', Accumulated ai_message copy) /\
    sessions st' = sessions st /\
    copy <> target /\ heap st !! copy = None /\
    deref (heap st') copy = merged /\ deref (heap st') target = merged /\
    forall l, l <> copy -> l <> target -> heap st' !! l = heap st !! l.
Proof.
  intros target merged. unfold accumulator. fold target. fold merged.
  pose proof (store_and_copy_spec st target merged) as H.
  destruct (store_and_copy st target merged) as [st' copy].
  destruct H as (Hs & Hne & Hnone & Hc & Ht & Hother).
  exists st', copy. unfold deref. rewrite Hc, Ht. auto 10.
Qed.

End Accumulator.

(** ** The accumulator inside [sendMessage] *)

Section AccumulatorClaims.

Import SessionService.

(** C1, the merge-order example: accumulated [{a:"1"}], incoming
    [[{key:"a",value:"2"},{key:"b",value:"3"}]]. *)
Example accumulate_merge_order :
  accumulate {[ "a" := "1" ]}
    [mkField (Some "a") (Some "2"); mkField (Some "b") (Some "3")]
  = {[ "a" := "2"; "b" := "3" ]}.
Proof. vm_compute. reflexivity. Qed.

(** What [sendMessage] does with an array-shaped result, for every key
    but ["__proto__"]: last write wins, and the reply carries a copy. *)
Lemma sendMessage_accumulates chat_sendMessage JSON_parse
    (st : State) (sessionId : string) (session : Session)
    (message : option string) (ai_message : option string) (fields : list Field) :
  sessions st !! sessionId = Some session ->
  AIService.outcome
    (AIService.sendMessage chat_sendMessage JSON_parse (Some (chat session)) message)
  = inr (Structured ai_message (FormDataArray fields)) ->
  let before := deref (heap st) (accumulatedFormData session) in
  let r := sendMessage chat_sendMessage JSON_parse st sessionId message in
  exists copy merged,
    outcome r = inr (Accumulated ai_message copy) /\
    copy <> accumulatedFormData session /\ heap st !! copy = None /\
    deref (heap (state_after r)) copy = merged /\
    accumulatedOf (state_after r) sessionId = Some merged /\
    merged = accumulate before fields /\
    forall k, k <> "__proto__" ->
      merged !! k = overwrite (assigned fields k) (before !! k).
Proof.
  intros Hs Hr before r. subst r. unfold sendMessage. rewrite Hs, Hr.
  destruct (accumulator_array st session ai_message fields)
    as (st' & copy & Heq & Hsess & Hne & Hnone & Hcopy & Htarget & _).
  rewrite Heq. simpl. exists copy, (accumulate before fields).
  unfold accumulatedOf. rewrite Hsess, Hs, Htarget. fold before.
  repeat split; auto.
  intros k Hk. rewrite accumulate_lookup. now case_decide.
Qed.

(** C1, failing input.  The record [{key:"__proto__", value:"x"}] has a
    present, non-empty key and value, so the sequence assigns "x" to that
    key; the accumulated object, and the copy returned to the caller,
    stay empty. *)
Theorem proto_key_is_not_accumulated :
  let fields := [mkField (Some "__proto__") (Some "x")] in
  assigned fields "__proto__" = Some "x" /\
  accumulate ∅ fields !! "__proto__" = None /\
  let r := example_send example_store (Some "proto") in
  accumulatedOf (state_after r) "s1" = Some ∅ /\
  exists copy,
    outcome r = inr (Accumulated (Some "ok") copy) /\
    deref (heap (state_after r)) copy = ∅.
Proof.
  cbv zeta. split; [reflexivity|]. split; [reflexivity|].
  split; [vm_compute; reflexivity|].
  eexists. split; vm_compute; reflexivity.
Qed.

(** C6. The sequence-shaped merge is idempotent: on the accumulated
    object, and on the session when the accumulator is run twice with
    the same array-shaped turn result. *)
Theorem accumulator_idempotent (st : State) (session : Session)
    (ai_message : option string) (fields : list Field) :
  let response := Structured ai_message (FormDataArray fields) in
  let once := (accumulator st session response).1 in
  let twice := (accumulator once session response).1 in
  (forall acc, accumulate (accumulate acc fields) fields = accumulate acc fields) /\
  deref (heap twice) (accumulatedFormData session)
  = deref (heap once) (accumulatedFormData session) /\
  sessions twice = sessions once.
Proof.
  intros response once twice. split; [intros; apply accumulate_idempotent|].
  subst once twice response.
  destruct (accumulator_array st session ai_message fields)
    as (st1 & c1 & Heq1 & Hs1 & _ & _ & _ & Ht1 & _).
  rewrite Heq1. cbn [fst].
  destruct (accumulator_array st1 session ai_message fields)
    as (st2 & c2 & Heq2 & Hs2 & _ & _ & _ & Ht2 & _).
  rewrite Heq2. cbn [fst]. split; [|assumption].
  rewrite Ht2, Ht1. apply accumulate_idempotent.
Qed.

End AccumulatorClaims.

(** ** Sending a message *)

Section SendMessage.

Import SessionService.

Variable chat_sendMessage : ChatHandle -> string -> ChatReply.
Variable JSON_parse : string -> option TurnResult.

Lemma hasSession_false (st : State) (sessionId : string) :
  hasSession st sessionId = false <-> sessions st !! sessionId = None.
Proof.
  unfold hasSession. rewrite bool_decide_eq_false.
  rewrite <- eq_None_not_Some. reflexivity.
Qed.

Lemma deleteSession_hasSession (st : State) (sessionId : string) :
  hasSession (deleteSession st sessionId).1 sessionId = false.
Proof. apply hasSession_false. simpl. apply lookup_delete_eq. Qed.

(** [sendMessage] never changes the [sessions] map. *)
Lemma sendMessage_sessions (st : State) (sessionId : string)
    (message : option string) :
  sessions (state_after (sendMessage chat_sendMessage JSON_parse st sessionId message))
  = sessions st.
Proof.
  unfold sendMessage.
  destruct (sessions st !! sessionId) as [session|]; [|reflexivity].
  destruct (AIService.outcome _) as [error|response]; [reflexivity|].
  destruct response as [s|ai_message [fields|props|]]; reflexivity.
Qed.

(** C5. For an identifier that is not in the store, [sendMessage]
    throws "Session not found", hands nothing to the gateway and leaves
    the whole state (sessions and accumulated objects) as it was. *)
Theorem sendMessage_unknown_session (st : State) (sessionId : string)
    (message : option string) :
  hasSession st sessionId = false ->
  sendMessage chat_sendMessage JSON_parse st sessionId message
  = mkSent st None (inl (ThrownError "Session not found")).
Proof.
  intros H. apply hasSession_false in H. unfold sendMessage. now rewrite H.
Qed.

(** C7. When the gateway's turn result is a plain string, [sendMessage]
    returns that very string and the state is unchanged. *)
Theorem sendMessage_plain_string (st : State) (sessionId : string)
    (session : Session) (message : option string) (text : string) :
  sessions st !! sessionId = Some session ->
  AIService.outcome
    (AIService.sendMessage chat_sendMessage JSON_parse (Some (chat session)) message)
  = inr (PlainString text) ->
  let r := sendMessage chat_sendMessage JSON_parse st sessionId message in
  outcome r = inr (Passthrough (PlainString text)) /\
  state_after r = st /\
  accumulatedOf (state_after r) sessionId = accumulatedOf st sessionId.
Proof.
  intros Hs Hr. unfold sendMessage. rewrite Hs, Hr. simpl. auto.
Qed.

(** The gateway's own check fires on an empty or missing message, and
    its [catch] replaces the error by the generic one. *)
Lemma gateway_refuses_empty (c : option ChatHandle) (message : option string) :
  message = None \/ message = Some "" ->
  AIService.sendMessage_try chat_sendMessage JSON_parse c message
  = AIService.mkSent None (inl (ThrownError AIService.required_message)) /\
  AIService.sendMessage chat_sendMessage JSON_parse c message
  = AIService.mkSent None (inl (ThrownError AIService.generic_message)).
Proof.
  intros [-> | ->]; destruct c; split; reflexivity.
Qed.

(** C9, amended. On an existing session, an empty or missing message
    makes [sendMessage] throw before any turn is handed to the remote
    conversation, with the state unchanged; the error that reaches the
    caller is the generic "Failed to get AI response. Please try again.",
    which the gateway's [catch] puts in place of its own "Chat instance
    and message are required". *)
Theorem sendMessage_empty_message (st : State) (sessionId : string)
    (session : Session) (message : option string) :
  sessions st !! sessionId = Some session ->
  message = None \/ message = Some "" ->
  let r := sendMessage chat_sendMessage JSON_parse st sessionId message in
  outcome r = inl (ThrownError "Failed to get AI response. Please try again.") /\
  forwarded r = None /\
  state_after r = st.
Proof.
  intros Hs Hm. unfold sendMessage. rewrite Hs.
  destruct (gateway_refuses_empty (Some (chat session)) message Hm) as [_ H].
  rewrite H. simpl. auto.
Qed.

End SendMessage.

Lemma sendMessage_unknown_session_witness :
  let deleted := (SessionService.deleteSession example_store "s1").1 in
  SessionService.hasSession deleted "s1" = false /\
  example_send deleted (Some "hello")
  = SessionService.mkSent deleted None (inl (ThrownError "Session not found")).
Proof.
  split; [vm_compute; reflexivity|].
  apply (sendMessage_unknown_session echo_chat example_parse).
  vm_compute. reflexivity.
Defined.

Lemma sendMessage_plain_string_witness :
  SessionService.outcome (example_send example_store (Some " hello "))
  = inr (SessionService.Passthrough (PlainString "Hello!")) /\
  SessionService.state_after (example_send example_store (Some " hello "))
  = example_store.
Proof.
  destruct (sendMessage_plain_string echo_chat example_parse example_store "s1"
              (SessionService.mkSession "s1" example_schema 7%nat 1000 0%nat)
              (Some " hello ") "Hello!") as (H1 & H2 & _).
  - vm_compute. reflexivity.
  - vm_compute. reflexivity.
  - split; assumption.
Defined.

Lemma sendMessage_empty_message_witness :
  SessionService.outcome (example_send example_store (Some ""))
  = inl (ThrownError "Failed to get AI response. Please try again.") /\
  SessionService.forwarded (example_send example_store (Some "")) = None /\
  SessionService.state_after (example_send example_store (Some "")) = example_store.
Proof.
  apply (sendMessage_empty_message echo_chat example_parse example_store "s1"
           (SessionService.mkSession "s1" example_schema 7%nat 1000 0%nat) (Some "")).
  - vm_compute. reflexivity.
  - right. reflexivity.
Defined.

(** C9, counterexample: the empty message on the session of the scenario
    is refused with the generic error, not with the gateway's own. *)
Lemma empty_message_claim_fails : ~ empty_message_claim.
Proof.
  intros H.
  destruct (H echo_chat example_parse example_store "s1"
              (SessionService.mkSession "s1" example_schema 7%nat 1000 0%nat) (Some ""))
    as [Habs _].
  - vm_compute. reflexivity.
  - right. reflexivity.
  - vm_compute in Habs. discriminate Habs.
Qed.

(** A message made of white space only passes the check and is handed to
    the remote conversation trimmed, that is, empty. *)
Example blank_message_is_forwarded :
  SessionService.forwarded (example_send example_store (Some "  ")) = Some "".
Proof. vm_compute. reflexivity. Qed.

(** ** The session-info accessor *)

Section SessionInfo.

Import SessionService.

(** [getSessionInfo] hands out the session's own reference. *)
Lemma getSessionInfo_reference (st : State) (sessionId : string) (info : SessionInfo) :
  getSessionInfo st sessionId = Some info ->
  exists session,
    sessions st !! sessionId = Some session /\
    info_accumulatedFormData info = accumulatedFormData session.
Proof.
  unfold getSessionInfo.
  destruct (sessions st !! sessionId) as [session|]; [|discriminate].
  intros [= <-]. eauto.
Qed.

(** Hence an assignment through it is an assignment to the session's
    accumulated form data. *)
Lemma assignThrough_info (st : State) (sessionId : string) (info : SessionInfo)
    (k v : string) :
  getSessionInfo st sessionId = Some info ->
  accumulatedOf (assignThrough st (info_accumulatedFormData info) k v) sessionId
  = (fun obj => Js.set obj k v) <$> accumulatedOf st sessionId.
Proof.
  intros H. apply getSessionInfo_reference in H as (session & Hs & ->).
  unfold accumulatedOf, assignThrough, deref. simpl. rewrite Hs. simpl.
  now rewrite lookup_insert_eq.
Qed.

(** The sibling path: the [form_data] returned by [sendMessage] is a
    copy, and an assignment through it does not reach the session. *)
Lemma assignThrough_reply chat_sendMessage JSON_parse
    (st : State) (sessionId : string) (session : Session)
    (message : option string) (ai_message : option string) (fields : list Field)
    (k v : string) :
  sessions st !! sessionId = Some session ->
  AIService.outcome
    (AIService.sendMessage chat_sendMessage JSON_parse (Some (chat session)) message)
  = inr (Structured ai_message (FormDataArray fields)) ->
  let r := sendMessage chat_sendMessage JSON_parse st sessionId message in
  exists copy,
    outcome r = inr (Accumulated ai_message copy) /\
    accumulatedOf (assignThrough (state_after r) copy k v) sessionId
    = accumulatedOf (state_after r) sessionId.
Proof.
  intros Hs Hr r. subst r. unfold sendMessage. rewrite Hs, Hr.
  destruct (accumulator_array st session ai_message fields)
    as (st' & copy & Heq & Hsess & Hne & _).
  rewrite Heq. simpl. exists copy. split; [reflexivity|].
  unfold accumulatedOf, assignThrough, deref. simpl. rewrite Hsess, Hs.
  now rewrite lookup_insert_ne by assumption.
Qed.

(** C3, failing input.  After one turn has accumulated [{a:"1"}] in
    session "s1", the caller of [getSessionInfo] assigns ["a"] := "2"
    through the returned [accumulatedFormData]: the session's own
    accumulated form data now reads [{a:"2"}]. *)
Theorem getSessionInfo_shares_accumulated :
  let st := state_after (example_send example_store (Some "a is 1")) in
  exists info,
    getSessionInfo st "s1" = Some info /\
    accumulatedOf st "s1" = Some {[ "a" := "1" ]} /\
    accumulatedOf (assignThrough st (info_accumulatedFormData info) "a" "2") "s1"
    = Some {[ "a" := "2" ]}.
Proof.
  eexists. split; [vm_compute; reflexivity|]. split; vm_compute; reflexivity.
Qed.

(** The claim of C3, as stated, does not hold of [getSessionInfo]. *)
Lemma snapshot_claim_fails : ~ snapshot_claim.
Proof.
  intros H.
  pose (st := state_after (example_send example_store (Some "a is 1"))).
  specialize (H st "s1" (mkSessionInfo "s1" example_schema 1000 0%nat) "a" "2").
  assert (accumulatedOf st "s1" = Some {[ "a" := "1" ]}) as Hold
    by (vm_compute; reflexivity).
  rewrite Hold in H.
  assert (Some ({[ "a" := "2" ]} : gmap string string) = Some {[ "a" := "1" ]}) as Habs.
  { rewrite <- H by (vm_compute; reflexivity). vm_compute. reflexivity. }
  apply (f_equal (fun o : option (gmap string string) =>
                    match o with Some m => m !! "a" | None => None end)) in Habs.
  vm_compute in Habs. discriminate Habs.
Qed.

End SessionInfo.

(** ** The expiry sweep *)

Section Cleanup.

Import SessionService.


Lemma fold_delete_lookup (ks : list string) (m : gmap string Session) (k : string) :
  fold_left (fun m sessionId => delete sessionId m) ks m !! k
  = if decide (k ∈ ks) then None else m !! k.
Proof.
  revert m. induction ks as [|a ks IH]; intros m; cbn [fold_left].
  - destruct (decide (k ∈ [])) as [H|_]; [|reflexivity]. now apply elem_of_nil in H.
  - rewrite IH. destruct (decide (a = k)) as [->|Hne].
    + rewrite lookup_delete_eq.
      destruct (decide (k ∈ ks)) as [H1|H1], (decide (k ∈ k :: ks)) as [H2|H2];
        try reflexivity; exfalso; apply H2; apply list_elem_of_here.
    + rewrite lookup_delete_ne by assumption.
      destruct (decide (k ∈ ks)) as [H1|H1], (decide (k ∈ a :: ks)) as [H2|H2];
        try reflexivity; exfalso.
      * apply H2. now apply list_elem_of_further.
      * apply elem_of_cons in H2 as [->|H2]; contradiction.
Qed.

Lemma expired_ids_elem (m : gmap string Session) (f : Session -> bool) (k : string) :
  k ∈ (List.filter (fun entry => f entry.2) (map_to_list m)).*1
  <-> exists session, m !! k = Some session /\ f session = true.
Proof.
  rewrite list_elem_of_fmap. split.
  - intros ([k' s] & -> & H). apply list_elem_of_In, filter_In in H as [H Hf].
    apply list_elem_of_In, elem_of_map_to_list in H. eauto.
  - intros (s & Hs & Hf). exists (k, s). split; [reflexivity|].
    apply list_elem_of_In, filter_In. split; [|assumption].
    now apply list_elem_of_In, elem_of_map_to_list.
Qed.

Lemma NoDup_filter_fst (l : list (string * Session)) (f : string * Session -> bool) :
  NoDup l.*1 -> NoDup (List.filter f l).*1.
Proof.
  induction l as [|e l IH]; simpl; [auto|].
  rewrite NoDup_cons. intros [Hnotin Hnd]. destruct (f e); simpl; [|auto].
  apply NoDup_cons. split; [|auto].
  intros Hin. apply Hnotin. apply list_elem_of_fmap in Hin as (e' & -> & Hin).
  apply list_elem_of_fmap. exists e'. split; [reflexivity|].
  apply list_elem_of_In, filter_In in Hin as [Hin _]. now apply list_elem_of_In.
Qed.

(** Deleting distinct present keys one by one lowers the size by their
    number. *)
Lemma fold_delete_size (ks : list string) (m : gmap string Session) :
  NoDup ks -> (forall k, k ∈ ks -> is_Some (m !! k)) ->
  size m = (size (fold_left (fun m sessionId => delete sessionId m) ks m)
            + length ks)%nat.
Proof.
  revert m. induction ks as [|a ks IH]; intros m Hnd Hin; simpl; [lia|].
  apply NoDup_cons in Hnd as [Hnotin Hnd].
  destruct (Hin a) as [s Hs]; [set_solver|].
  assert (size (delete a m)
          = (size (fold_left (fun m sessionId => delete sessionId m) ks (delete a m))
             + length ks)%nat) as Hrest.
  { apply IH; [assumption|]. intros k Hk.
    rewrite lookup_delete_ne; [apply Hin; set_solver|].
    intros ->. contradiction. }
  pose proof (map_size_delete_Some a m (ex_intro _ s Hs)) as Hsz.
  assert (size m <> 0%nat); [|lia].
  apply map_size_non_empty_iff. intros ->. now rewrite lookup_empty in Hs.
Qed.

Lemma cleanup_lookup (st : State) (maxAgeMinutes : option Q) (now : Z) (k : string) :
  sessions (cleanupExpiredSessions st maxAgeMinutes now).1 !! k
  = match sessions st !! k with
    | Some session =>
        if expired now (default 60%Q maxAgeMinutes) session then None else Some session
    | None => None
    end.
Proof.
  unfold cleanupExpiredSessions. simpl. rewrite fold_delete_lookup.
  case_decide as H.
  - apply expired_ids_elem in H as (s & -> & ->). reflexivity.
  - destruct (sessions st !! k) as [s|] eqn:Hs; [|reflexivity].
    destruct (expired now (default 60%Q maxAgeMinutes) s) eqn:He; [|reflexivity].
    exfalso. apply H. apply expired_ids_elem. eauto.
Qed.


End Cleanup.

Section CleanupClaim.

Import SessionService.

Lemma double_cleanup_lookup (st : State) (maxAgeMinutes : option float) (now : Z)
    (k : string) :
  sessions (Doubles.cleanupExpiredSessions st maxAgeMinutes now).1 !! k
  = match sessions st !! k with
    | Some session =>
        if Doubles.expired now (default 60%float maxAgeMinutes) session
        then None else Some session
    | None => None
    end.
Proof.
  unfold Doubles.cleanupExpiredSessions. simpl. rewrite fold_delete_lookup.
  case_decide as H.
  - apply expired_ids_elem in H as (s & -> & ->). reflexivity.
  - destruct (sessions st !! k) as [s|] eqn:Hs; [|reflexivity].
    destruct (Doubles.expired now (default 60%float maxAgeMinutes) s) eqn:He;
      [|reflexivity].
    exfalso. apply H. apply expired_ids_elem. eauto.
Qed.

Lemma double_cleanup_size (st : State) (maxAgeMinutes : option float) (now : Z) :
  size (sessions st)
  = (size (sessions (Doubles.cleanupExpiredSessions st maxAgeMinutes now).1)
     + (Doubles.cleanupExpiredSessions st maxAgeMinutes now).2)%nat.
Proof.
  unfold Doubles.cleanupExpiredSessions. simpl. apply fold_delete_size.
  - apply (NoDup_filter_fst _ (fun entry => Doubles.expired now _ entry.2)).
    apply NoDup_fst_map_to_list.
  - intros k Hk. apply expired_ids_elem in Hk as (s & Hs & _). eauto.
Qed.

(** C4, counterexample.  One session, created 18000 ms before the sweep,
    and the threshold 0.3: the double 0.3 stands for a number just below
    3/10, which the age of 3/10 of a minute exceeds; the quotient
    18000 / 60000 in binary64 is that same double, so the comparison fails
    and the session stays. *)
Lemma exact_age_claim_fails : ~ exact_age_claim.
Proof.
  intros H.
  specialize (H one_session 0x1.3333333333333p-2%float
                (5404319552844595 # 18014398509481984)%Q 18000%Z "s1"
                (mkSession "s1" (JsObject {[ "name" := JsString "string" ]})
                   7%nat 0 0%nat)).
  assert (sessions
            (Doubles.cleanupExpiredSessions one_session
               (Some 0x1.3333333333333p-2%float) 18000).1 !! "s1" <> None) as Hkept.
  { vm_compute. discriminate. }
  apply Hkept, H.
  - vm_compute. reflexivity.
  - vm_compute. reflexivity.
  - vm_compute. reflexivity.
Qed.

(** C4, amended.  The sweep removes exactly the sessions whose age in
    minutes, the quotient of now minus the creation time by 60000 computed
    in binary64 arithmetic, compares greater than the threshold (60 when
    none is given); every other session record and every accumulated
    object is left as it was; the number returned is the number of
    sessions removed; the decision is a function of the creation time
    alone.  With sessions created 90 and 10 minutes ago and a threshold of
    60, the first one is removed and 1 is returned. *)
Theorem cleanupExpiredSessions_spec (st : State) (maxAgeMinutes : option float)
    (now : Z) :
  let threshold := default 60%float maxAgeMinutes in
  let r := Doubles.cleanupExpiredSessions st maxAgeMinutes now in
  (forall sessionId,
     sessions r.1 !! sessionId
     = match sessions st !! sessionId with
       | Some session =>
           if Doubles.expired now threshold session then None else Some session
       | None => None
       end) /\
  heap r.1 = heap st /\
  size (sessions st) = (size (sessions r.1) + r.2)%nat /\
  (forall session,
     Doubles.expired now threshold session = true
     <-> PrimFloat.ltb threshold
           (PrimFloat.div (Doubles.of_Z (now - createdAt session)) 60000) = true) /\
  (forall session session',
     createdAt session = createdAt session' ->
     Doubles.expired now threshold session = Doubles.expired now threshold session') /\
  (forall objects schema1 schema2 chat1 chat2 data1 data2,
     let old := mkSession "s1" schema1 chat1 (now - minutes 90) data1 in
     let recent := mkSession "s2" schema2 chat2 (now - minutes 10) data2 in
     Doubles.cleanupExpiredSessions
       (mkState {[ "s1" := old; "s2" := recent ]} objects) (Some 60%float) now
     = (mkState {[ "s2" := recent ]} objects, 1%nat)).
Proof.
  intros threshold r. split; [intros; apply double_cleanup_lookup|].
  split; [reflexivity|]. split; [apply double_cleanup_size|].
  split; [intros; reflexivity|].
  split; [intros s s' H; unfold Doubles.expired, Doubles.ageMinutes; now rewrite H|].
  intros objects schema1 schema2 chat1 chat2 data1 data2 old recent.
  set (st2 := mkState {[ "s1" := old; "s2" := recent ]} objects).
  assert (Doubles.expired now 60 old = true) as Hold.
  { unfold Doubles.expired, Doubles.ageMinutes, old, minutes. simpl createdAt.
    replace (now - (now - 90 * 60000))%Z with 5400000%Z by lia.
    vm_compute. reflexivity. }
  assert (Doubles.expired now 60 recent = false) as Hrecent.
  { unfold Doubles.expired, Doubles.ageMinutes, recent, minutes. simpl createdAt.
    replace (now - (now - 10 * 60000))%Z with 600000%Z by lia.
    vm_compute. reflexivity. }
  assert (sessions (Doubles.cleanupExpiredSessions st2 (Some 60%float) now).1
          = {[ "s2" := recent ]}) as Hsessions.
  { apply map_eq. intros k. rewrite double_cleanup_lookup. subst st2. simpl.
    destruct (decide (k = "s1")) as [->|H1].
    - rewrite lookup_insert_eq, Hold. reflexivity.
    - rewrite lookup_insert_ne by congruence.
      destruct (decide (k = "s2")) as [->|H2].
      + rewrite lookup_singleton_eq, Hrecent. reflexivity.
      + rewrite lookup_singleton_ne by congruence. reflexivity. }
  pose proof (double_cleanup_size st2 (Some 60%float) now) as Hsize.
  rewrite Hsessions, map_size_singleton in Hsize.
  assert (size (sessions st2) = 2%nat) as Hsz2.
  { subst st2. simpl.
    rewrite map_size_insert_None by (now rewrite lookup_singleton_ne).
    now rewrite map_size_singleton. }
  assert (heap (Doubles.cleanupExpiredSessions st2 (Some 60%float) now).1 = objects)
    as Hheap by reflexivity.
  destruct (Doubles.cleanupExpiredSessions st2 (Some 60%float) now) as [[s' h'] n].
  simpl in Hsessions, Hsize, Hheap. subst s' h'. f_equal.
  subst st2. simpl in Hsz2. lia.
Qed.

End CleanupClaim.

(** ** Consistency of the store *)

Section Consistency.

Import SessionService.

Lemma count_is_length (st : State) :
  getSessionCount st = length (getAllSessionIds st).
Proof.
  unfold getSessionCount, getAllSessionIds.
  now rewrite length_fmap, length_map_to_list.
Qed.

Lemma hasSession_listed (st : State) (sessionId : string) :
  hasSession st sessionId = true <-> In sessionId (getAllSessionIds st).
Proof.
  unfold hasSession, getAllSessionIds. rewrite bool_decide_eq_true.
  rewrite <- list_elem_of_In, list_elem_of_fmap. split.
  - intros [s Hs]. exists (sessionId, s). split; [reflexivity|].
    now apply elem_of_map_to_list.
  - intros ([k s] & -> & H). apply elem_of_map_to_list in H. eauto.
Qed.

Lemma store_consistent_intro (st : State) :
  (forall k session, sessions st !! k = Some session -> id session = k) ->
  store_consistent st.
Proof.
  intros H. split; [assumption|]. split.
  - apply count_is_length.
  - apply hasSession_listed.
Qed.

Lemma store_consistent_empty : store_consistent empty.
Proof.
  apply store_consistent_intro. intros k s H.
  change (sessions empty) with (∅ : gmap string Session) in H.
  now rewrite lookup_empty in H.
Qed.

(** C10. Each operation of the store (create, send, delete, sweep)
    preserves its consistency: records stored under their own [id], the
    count equal to the length of the identifier list, and [hasSession]
    true exactly of the identifiers in that list. *)
Theorem store_consistent_preserved (st : State) :
  store_consistent st ->
  (forall schema uuid newChat now,
     store_consistent (createSession st schema uuid newChat now).1) /\
  (forall chat_sendMessage JSON_parse sessionId message,
     store_consistent
       (state_after (sendMessage chat_sendMessage JSON_parse st sessionId message))) /\
  (forall sessionId, store_consistent (deleteSession st sessionId).1) /\
  (forall maxAgeMinutes now,
     store_consistent (cleanupExpiredSessions st maxAgeMinutes now).1).
Proof.
  intros [Hid _]. split; [|split; [|split]]; intros;
    apply store_consistent_intro; intros k s Hs.
  - unfold createSession in Hs.
    destruct (negb (AIService.validateSchema _)); simpl in Hs; [eauto|].
    destruct (decide (uuid = k)) as [->|Hne].
    + rewrite lookup_insert_eq in Hs. now injection Hs as <-.
    + rewrite lookup_insert_ne in Hs by assumption. eauto.
  - rewrite sendMessage_sessions in Hs. eauto.
  - simpl in Hs. apply lookup_delete_Some in Hs as [_ Hs]. eauto.
  - rewrite cleanup_lookup in Hs.
    destruct (sessions st !! k) as [s'|] eqn:Hk; [|discriminate].
    destruct (expired _ _ s'); [discriminate|]. injection Hs as <-. eauto.
Qed.

End Consistency.

Lemma store_consistent_preserved_witness :
  store_consistent SessionService.empty /\ store_consistent example_store.
Proof.
  split; [apply store_consistent_empty|].
  apply (store_consistent_preserved SessionService.empty store_consistent_empty).
Defined.

(** ** More on the gateway: errors, degraded results, trimming *)

Section GatewayFacts.

Variable chat_sendMessage : ChatHandle -> string -> ChatReply.
Variable JSON_parse : string -> option TurnResult.

Lemma truthy_true (s : string) : s <> "" -> JsString.truthy s = true.
Proof. destruct s; [contradiction|reflexivity]. Qed.

(** What the body of the [try] does once the check has passed. *)
Lemma sendMessage_try_forwarded (c : ChatHandle) (m : string) :
  m <> "" ->
  AIService.sendMessage_try chat_sendMessage JSON_parse (Some c) (Some m)
  = match chat_sendMessage c (JsString.trim m) with
    | ChatReject error => AIService.mkSent (Some (JsString.trim m)) (inl error)
    | ChatResolve (Some responseText) =>
        if negb (JsString.truthy responseText)
        then AIService.mkSent (Some (JsString.trim m))
               (inl (ThrownError AIService.no_response_message))
        else
          match JSON_parse responseText with
          | Some parsedResponse =>
              AIService.mkSent (Some (JsString.trim m))
                (inr (AIService.autoFormat parsedResponse))
          | None =>
              AIService.mkSent (Some (JsString.trim m))
                (inr (Structured (Some responseText) (FormDataArray [])))
          end
    | ChatResolve None =>
        AIService.mkSent (Some (JsString.trim m))
          (inl (ThrownError AIService.no_response_message))
    end.
Proof.
  intros Hm. unfold AIService.sendMessage_try. now rewrite (truthy_true m Hm).
Qed.

Lemma sendMessage_catch_gateway_error (error : Thrown) :
  gateway_error (AIService.sendMessage_catch error).
Proof.
  unfold gateway_error, AIService.sendMessage_catch.
  destruct error as [message|]; [|auto].
  destruct (JsString.includes message "quota"); [auto|].
  destruct (JsString.includes message "safety"); auto.
Qed.

Lemma sendMessage_outcome_error (c : option ChatHandle)
    (message : option string) (error : Thrown) :
  AIService.outcome (AIService.sendMessage chat_sendMessage JSON_parse c message)
  = inl error ->
  gateway_error error.
Proof.
  unfold AIService.sendMessage.
  destruct (AIService.outcome (AIService.sendMessage_try _ _ c message)) as [e|r] eqn:H.
  - simpl. intros [= <-]. apply sendMessage_catch_gateway_error.
  - rewrite H. discriminate.
Qed.

(** Whatever goes wrong in [AIService.sendMessage], the caller sees one of
    three errors: quota exceeded, flagged by the safety filters, or the
    generic failure. *)
Theorem sendMessage_throws_gateway_errors (c : option ChatHandle)
    (message : option string) (error : Thrown) :
  AIService.outcome (AIService.sendMessage chat_sendMessage JSON_parse c message)
  = inl error ->
  gateway_error error.
Proof. apply sendMessage_outcome_error. Qed.

(** How a rejection of the remote call is reported: "quota" in its
    message wins over "safety", and anything else is the generic failure.
    The message was handed over trimmed. *)
Theorem sendMessage_rejection (c : ChatHandle) (m reason : string) :
  m <> "" ->
  chat_sendMessage c (JsString.trim m) = ChatReject (ThrownError reason) ->
  let r := AIService.sendMessage chat_sendMessage JSON_parse (Some c) (Some m) in
  AIService.forwarded r = Some (JsString.trim m) /\
  (contains reason "quota" ->
   AIService.outcome r
   = inl (ThrownError "AI service quota exceeded. Please try again later.")) /\
  (~ contains reason "quota" -> contains reason "safety" ->
   AIService.outcome r
   = inl (ThrownError
            "Message flagged by safety filters. Please rephrase your message.")) /\
  (~ contains reason "quota" -> ~ contains reason "safety" ->
   AIService.outcome r
   = inl (ThrownError "Failed to get AI response. Please try again.")).
Proof.
  intros Hm Hrej r. subst r. unfold AIService.sendMessage.
  rewrite (sendMessage_try_forwarded c m Hm), Hrej. simpl.
  unfold contains. rewrite <- !includes_app.
  destruct (JsString.includes reason "quota");
    destruct (JsString.includes reason "safety");
    repeat split; intros; try reflexivity; try congruence;
    exfalso; auto.
Qed.

(** A non-empty reply that [JSON.parse] rejects is not an error: the
    result is the raw text as [ai_message] with no extracted field. *)
Lemma sendMessage_unparsable (c : ChatHandle) (m text : string) :
  m <> "" -> text <> "" ->
  chat_sendMessage c (JsString.trim m) = ChatResolve (Some text) ->
  JSON_parse text = None ->
  AIService.sendMessage chat_sendMessage JSON_parse (Some c) (Some m)
  = AIService.mkSent (Some (JsString.trim m))
      (inr (Structured (Some text) (FormDataArray []))).
Proof.
  intros Hm Ht Hres Hparse. unfold AIService.sendMessage.
  rewrite (sendMessage_try_forwarded c m Hm), Hres, (truthy_true text Ht), Hparse.
  reflexivity.
Qed.

(** An absent or empty reply text is reported as the generic failure. *)
Theorem sendMessage_no_response (c : ChatHandle) (m : string) (text : option string) :
  m <> "" ->
  chat_sendMessage c (JsString.trim m) = ChatResolve text ->
  text = None \/ text = Some "" ->
  AIService.sendMessage chat_sendMessage JSON_parse (Some c) (Some m)
  = AIService.mkSent (Some (JsString.trim m))
      (inl (ThrownError "Failed to get AI response. Please try again.")).
Proof.
  intros Hm Hres Ht. unfold AIService.sendMessage.
  rewrite (sendMessage_try_forwarded c m Hm), Hres.
  destruct Ht as [-> | ->]; reflexivity.
Qed.

(** The health check succeeds exactly when the remote conversation answers
    "test" with a non-empty text, whether or not that text parses. *)
Theorem healthCheck_spec (testChat : ChatHandle) :
  AIService.healthCheck chat_sendMessage JSON_parse testChat = true
  <-> exists text,
        chat_sendMessage testChat "test" = ChatResolve (Some text) /\ text <> "".
Proof.
  unfold AIService.healthCheck, AIService.sendMessage.
  rewrite (sendMessage_try_forwarded testChat "test") by discriminate.
  change (JsString.trim "test") with "test".
  destruct (chat_sendMessage testChat "test") as [e|[text|]]; simpl.
  - split; [discriminate|]. intros (t & H & _). discriminate.
  - destruct text as [|ch text]; simpl.
    + split; [discriminate|]. intros (t & [= <-] & H). contradiction.
    + destruct (JSON_parse (String ch text)); simpl;
        (split; [intros _; eexists; split; [reflexivity|discriminate]|reflexivity]).
  - split; [discriminate|]. intros (t & H & _). discriminate.
Qed.

End GatewayFacts.

(** ** Trimming *)

Section Trim.

Import JsString.

Lemma append_cons (c : ascii) (a b : string) :
  String c a ++ b = String c (a ++ b).
Proof. reflexivity. Qed.

Lemma append_nil_l (a : string) : "" ++ a = a.
Proof. reflexivity. Qed.

Lemma trimStart_split (s : string) :
  exists pre, s = pre ++ trimStart s /\ all_space pre = true.
Proof.
  induction s as [|c s (pre & IH & Hpre)]; [now exists EmptyString|].
  simpl. destruct (is_space c) eqn:Hc.
  - exists (String c pre). rewrite append_cons, <- IH. simpl.
    now rewrite Hc, Hpre.
  - now exists EmptyString.
Qed.

Lemma trimStart_first (s : string) (c : ascii) :
  first_char (trimStart s) = Some c -> is_space c = false.
Proof.
  induction s as [|d s IH]; [discriminate|].
  simpl. destruct (is_space d) eqn:Hd; [assumption|].
  simpl. now intros [= <-].
Qed.

Lemma trimEnd_unfold (c : ascii) (s : string) :
  trimEnd (String c s)
  = match trimEnd s with
    | EmptyString => if is_space c then EmptyString else String c EmptyString
    | String d t => String c (String d t)
    end.
Proof. simpl. now destruct (trimEnd s). Qed.

Lemma trimEnd_split (s : string) :
  exists post, s = trimEnd s ++ post /\ all_space post = true.
Proof.
  induction s as [|c s (post & IH & Hpost)]; [now exists EmptyString|].
  rewrite trimEnd_unfold. destruct (trimEnd s) as [|d t].
  - rewrite append_nil_l in IH. subst s. destruct (is_space c) eqn:Hc.
    + exists (String c post). rewrite append_nil_l. simpl. now rewrite Hc, Hpost.
    + exists post. now rewrite append_cons, append_nil_l.
  - exists post. split; [|assumption]. now rewrite append_cons, <- IH.
Qed.

Lemma trimEnd_last (s : string) (c : ascii) :
  last_char (trimEnd s) = Some c -> is_space c = false.
Proof.
  induction s as [|d s IH]; [discriminate|].
  rewrite trimEnd_unfold. destruct (trimEnd s) as [|e t].
  - destruct (is_space d) eqn:Hd; [discriminate|]. simpl. now intros [= <-].
  - exact IH.
Qed.

Lemma trimEnd_first (s : string) (c : ascii) :
  first_char (trimEnd s) = Some c -> first_char s = Some c.
Proof.
  destruct s as [|d s]; [discriminate|].
  rewrite trimEnd_unfold. destruct (trimEnd s) as [|e t].
  - destruct (is_space d); [discriminate|]. exact id.
  - exact id.
Qed.

Lemma trim_decompose (s : string) :
  (exists pre post,
     s = pre ++ trim s ++ post /\ all_space pre = true /\ all_space post = true) /\
  no_outer_space (trim s).
Proof.
  unfold trim.
  destruct (trimStart_split s) as (pre & Hs & Hpre).
  destruct (trimEnd_split (trimStart s)) as (post & Ht & Hpost).
  split; [|split].
  - exists pre, post. split; [|auto]. now rewrite <- Ht.
  - intros c H. apply trimEnd_first in H. now apply (trimStart_first s).
  - apply trimEnd_last.
Qed.

Lemma trimStart_id (s : string) :
  (forall c, first_char s = Some c -> is_space c = false) -> trimStart s = s.
Proof.
  destruct s as [|c s]; [reflexivity|]. intros H. simpl.
  now rewrite (H c eq_refl).
Qed.

Lemma trimEnd_id (s : string) :
  (forall c, last_char s = Some c -> is_space c = false) -> trimEnd s = s.
Proof.
  induction s as [|c s IH]; [reflexivity|]. intros H.
  rewrite trimEnd_unfold. destruct s as [|d s].
  - simpl. now rewrite (H c eq_refl).
  - rewrite IH by exact H. reflexivity.
Qed.

(** [trim] removes white space, and only white space, from both ends:
    the string is the trimmed one between two runs of white space, and
    the trimmed one neither starts nor ends with white space; trimming
    again changes nothing. *)
Lemma trim_spec (s : string) :
  (exists pre post,
     s = pre ++ trim s ++ post /\ all_space pre = true /\ all_space post = true) /\
  no_outer_space (trim s) /\
  trim (trim s) = trim s.
Proof.
  destruct (trim_decompose s) as [Hsplit Hno]. split; [assumption|].
  split; [assumption|]. destruct Hno as [Hfirst Hlast]. unfold trim at 1.
  rewrite (trimStart_id _ Hfirst). now apply trimEnd_id.
Qed.


End Trim.


(** ** More on URL auto-formatting *)

Lemma formatField_cases (field : Field) :
  AIService.formatField field = field \/
  exists k v,
    field = mkField (Some k) (Some v) /\ k <> "" /\ v <> "" /\ url_like k /\
    JsString.startsWith v "http" = false /\
    AIService.formatField field = mkField (Some k) (Some ("https://" ++ v)).
Proof.
  destruct field as [[k|] [v|]]; try (left; reflexivity).
  rewrite formatField_present.
  destruct (JsString.truthy k) eqn:Hk; [|left; reflexivity].
  destruct (JsString.truthy v) eqn:Hv; [|left; now rewrite andb_false_r].
  simpl andb.
  destruct (JsString.includes (JsString.toLowerCase k) "url"
            || JsString.includes (JsString.toLowerCase k) "profile"
            || JsString.includes (JsString.toLowerCase k) "link"
            || JsString.includes (JsString.toLowerCase k) "website") eqn:Hurl;
    [|left; reflexivity].
  destruct (JsString.startsWith v "http") eqn:Hs; [left; reflexivity|].
  right. exists k, v. apply truthy_nonempty in Hk, Hv.
  apply (url_like_test k) in Hurl. auto 10.
Qed.

Lemma formatField_idempotent (field : Field) :
  AIService.formatField (AIService.formatField field) = AIService.formatField field.
Proof.
  destruct (formatField_cases field)
    as [H|(k & v & -> & Hk & Hv & Hurl & Hs & H)]; [now rewrite H|].
  rewrite H. rewrite formatField_present.
  apply url_like_test in Hurl. cbv zeta in Hurl. rewrite Hurl.
  rewrite (truthy_true k Hk). reflexivity.
Qed.

(** Auto-formatting an auto-formatted result changes nothing. *)
Theorem autoFormat_idempotent (r : TurnResult) :
  AIService.autoFormat (AIService.autoFormat r) = AIService.autoFormat r.
Proof.
  destruct r as [s|ai_message [fields|props|]]; try reflexivity.
  simpl. do 2 f_equal. rewrite map_map.
  apply map_ext. intros field. apply formatField_idempotent.
Qed.

Lemma formatField_same_or_prefixed (field : Field) :
  same_or_prefixed field (AIService.formatField field).
Proof.
  unfold same_or_prefixed.
  destruct (formatField_cases field)
    as [H|(k & v & -> & _ & _ & _ & _ & H)]; rewrite H; simpl; eauto.
Qed.

Lemma formatField_has_scheme (field : Field) (k v : string) :
  key (AIService.formatField field) = Some k ->
  value (AIService.formatField field) = Some v ->
  v <> "" -> url_like k ->
  JsString.startsWith v "http" = true.
Proof.
  intros Hk Hv Hne Hurl.
  destruct field as [fk fv].
  destruct (formatField_same_or_prefixed (mkField fk fv)) as [Hkey _].
  rewrite Hk in Hkey. simpl in Hkey. subst fk.
  destruct fv as [v0|].
  - destruct v0 as [|ch v0].
    + rewrite formatField_no_value in Hv by (right; reflexivity).
      simpl in Hv. congruence.
    + rewrite formatField_url_like in Hv by (discriminate || assumption).
      simpl in Hv. injection Hv as <-. unfold with_scheme.
      destruct (JsString.startsWith (String ch v0) "http") eqn:Hs;
        [assumption|reflexivity].
  - rewrite formatField_no_value in Hv by (left; reflexivity). discriminate.
Qed.

(** What auto-formatting does to a parsed result: it keeps [ai_message],
    the number and order of the fields and every key; a value is kept or
    gets "https://" in front; afterwards every non-empty value under a
    URL-like key starts with "http".  A result without an array of fields
    is returned as it is. *)
Theorem autoFormat_spec (r : TurnResult) :
  Server.ai_message_of (AIService.autoFormat r) = Server.ai_message_of r /\
  Forall2 same_or_prefixed (fields_of r) (fields_of (AIService.autoFormat r)) /\
  (forall field k v,
     In field (fields_of (AIService.autoFormat r)) ->
     key field = Some k -> value field = Some v -> v <> "" -> url_like k ->
     JsString.startsWith v "http" = true) /\
  (fields_of r = [] -> AIService.autoFormat r = r).
Proof.
  destruct r as [s|ai_message [fields|props|]];
    try (repeat split; try constructor; contradiction).
  simpl. split; [reflexivity|]. split; [|split].
  - induction fields as [|f fields IH]; constructor;
      auto using formatField_same_or_prefixed.
  - intros field k v Hin. apply in_map_iff in Hin as (f & <- & _).
    apply formatField_has_scheme.
  - now intros ->.
Qed.

(** ** Creating and deleting sessions *)

Section Lifecycle.

Import SessionService.

Lemma hasSession_true (st : State) (sessionId : string) :
  hasSession st sessionId = true <-> is_Some (sessions st !! sessionId).
Proof. unfold hasSession. apply bool_decide_eq_true. Qed.

(** A schema that the validator rejects creates nothing: "Invalid schema
    format" is thrown and the state is unchanged. *)
Theorem createSession_invalid_schema (st : State) (schema0 : JsValue)
    (uuid : string) (newChat : ChatHandle) (now : Z) :
  ~ well_formed_schema schema0 ->
  createSession st schema0 uuid newChat now
  = (st, inl (ThrownError "Invalid schema format")).
Proof.
  intros H. rewrite <- validateSchema_true in H. apply not_true_iff_false in H.
  unfold createSession. now rewrite H.
Qed.

(** A well-formed schema creates a session under the new identifier: it
    exists, its info shows the schema and the creation time, its
    accumulated form data is empty; every other session, with its
    accumulated form data, is as before; and the count grows by one when
    the identifier was not in use. *)
Theorem createSession_valid_schema (st : State) (schema0 : JsValue)
    (uuid : string) (newChat : ChatHandle) (now : Z) :
  well_formed_schema schema0 ->
  let r := createSession st schema0 uuid newChat now in
  r.2 = inr uuid /\
  hasSession r.1 uuid = true /\
  (exists data,
     getSessionInfo r.1 uuid = Some (mkSessionInfo uuid schema0 now data)) /\
  accumulatedOf r.1 uuid = Some ∅ /\
  (forall other, other <> uuid ->
     sessions r.1 !! other = sessions st !! other /\
     accumulatedOf r.1 other = accumulatedOf st other) /\
  (hasSession st uuid = false -> getSessionCount r.1 = S (getSessionCount st)).
Proof.
  intros H. apply validateSchema_true in H. intros r. subst r.
  unfold createSession. rewrite H. simpl.
  pose proof (is_fresh (dom (heap st))) as Hfresh.
  set (data := fresh (dom (heap st))) in *.
  apply not_elem_of_dom in Hfresh.
  split; [reflexivity|]. split; [|split; [|split; [|split]]].
  - apply hasSession_true. simpl. rewrite lookup_insert_eq. eauto.
  - exists data. unfold getSessionInfo. simpl. now rewrite lookup_insert_eq.
  - unfold accumulatedOf, deref. simpl. now rewrite !lookup_insert_eq.
  - intros other Hne. unfold accumulatedOf, deref. simpl.
    rewrite lookup_insert_ne by congruence. split; [reflexivity|].
    destruct (sessions st !! other) as [s|]; [|reflexivity]. f_equal.
    destruct (decide (accumulatedFormData s = data)) as [->|Hd].
    + now rewrite lookup_insert_eq, Hfresh.
    + now rewrite lookup_insert_ne by congruence.
  - intros Hno. apply hasSession_false in Hno. unfold getSessionCount. simpl.
    now apply map_size_insert_None.
Qed.

(** Deleting a session: the result tells whether it existed; afterwards it
    does not; every other session, and every accumulated object, is as
    before; the count drops by one exactly when something was deleted; and
    deleting again returns false and changes nothing. *)
Theorem deleteSession_spec (st : State) (sessionId : string) :
  let r := deleteSession st sessionId in
  r.2 = hasSession st sessionId /\
  hasSession r.1 sessionId = false /\
  heap r.1 = heap st /\
  (forall other, other <> sessionId ->
     sessions r.1 !! other = sessions st !! other /\
     accumulatedOf r.1 other = accumulatedOf st other) /\
  getSessionCount st = (getSessionCount r.1 + if r.2 then 1 else 0)%nat /\
  deleteSession r.1 sessionId = (r.1, false).
Proof.
  intros r. subst r. unfold deleteSession. simpl.
  split; [reflexivity|]. split; [|split; [reflexivity|split; [|split]]].
  - apply hasSession_false. simpl. apply lookup_delete_eq.
  - intros other Hne. unfold accumulatedOf. simpl.
    now rewrite lookup_delete_ne by congruence.
  - unfold getSessionCount. simpl.
    destruct (sessions st !! sessionId) as [s|] eqn:Hs.
    + rewrite bool_decide_eq_true_2 by eauto.
      pose proof (map_size_delete_Some sessionId (sessions st) (ex_intro _ s Hs)) as Hsz.
      assert (size (sessions st) <> 0%nat); [|lia].
      apply map_size_non_empty_iff. intros Hempty. rewrite Hempty in Hs.
      now rewrite lookup_empty in Hs.
    + rewrite bool_decide_eq_false_2 by (intros [? ?]; discriminate).
      rewrite delete_id by assumption. lia.
  - rewrite delete_delete_eq. f_equal.
    apply bool_decide_eq_false_2. rewrite lookup_delete_eq. intros [? ?]. discriminate.
Qed.

End Lifecycle.

Lemma createSession_invalid_schema_witness :
  SessionService.createSession example_store (JsArray []) "s2" 8%nat 2000
  = (example_store, inl (ThrownError "Invalid schema format")).
Proof.
  apply createSession_invalid_schema.
  intros (props & H & _). discriminate H.
Defined.

Lemma createSession_valid_schema_witness :
  SessionService.hasSession example_store "s1" = true /\
  SessionService.accumulatedOf example_store "s1" = Some ∅.
Proof.
  assert (well_formed_schema example_schema) as Hwf.
  { apply validateSchema_true. vm_compute. reflexivity. }
  destruct (createSession_valid_schema SessionService.empty example_schema "s1"
              7%nat 1000 Hwf) as (_ & Hhas & _ & Hacc & _).
  split; [exact Hhas|exact Hacc].
Defined.

(** ** Sessions do not share their accumulated form data *)

Section Isolation.

Import SessionService.

(** What the accumulator does to the heap, whatever the response: only the
    session's own object and a new object are written. *)
Lemma accumulator_frame (st : State) (session : Session) (response : TurnResult) :
  let target := accumulatedFormData session in
  let r := accumulator st session response in
  sessions r.1 = sessions st /\
  (forall l, l <> target -> is_Some (heap st !! l) -> heap r.1 !! l = heap st !! l) /\
  (forall l, is_Some (heap st !! l) -> is_Some (heap r.1 !! l)) /\
  match r.2 with
  | Passthrough response' => r.1 = st /\ response' = response
  | Accumulated _ copy =>
      copy <> target /\ heap st !! copy = None /\
      is_Some (heap r.1 !! target) /\ heap r.1 !! copy = heap r.1 !! target
  end.
Proof.
  intros target r. subst r.
  assert (forall obj ai_message,
    let r := (let '(st', copy) := store_and_copy st target obj in
              (st', Accumulated ai_message copy)) in
    sessions r.1 = sessions st /\
    (forall l, l <> target -> is_Some (heap st !! l) -> heap r.1 !! l = heap st !! l) /\
    (forall l, is_Some (heap st !! l) -> is_Some (heap r.1 !! l)) /\
    match r.2 with
    | Passthrough response' => r.1 = st /\ response' = response
    | Accumulated _ copy =>
        copy <> target /\ heap st !! copy = None /\
        is_Some (heap r.1 !! target) /\ heap r.1 !! copy = heap r.1 !! target
    end) as Hcopy.
  { intros obj ai_message.
    pose proof (store_and_copy_spec st target obj) as H.
    destruct (store_and_copy st target obj) as [st' copy].
    destruct H as (Hs & Hne & Hnone & Hc & Ht & Hother). cbv zeta. simpl.
    split; [assumption|]. split; [|split].
    - intros l Hl [x Hx]. apply Hother; congruence.
    - intros l [x Hx]. destruct (decide (l = target)) as [->|Hl]; [eauto|].
      rewrite Hother; [eauto| congruence |assumption].
    - rewrite Hc, Ht. eauto. }
  destruct response as [s|ai_message [fields|props|]].
  - simpl. repeat split; auto.
  - exact (Hcopy (accumulate (deref (heap st) target) fields) ai_message).
  - exact (Hcopy (Js.assign (deref (heap st) target) props) ai_message).
  - simpl. repeat split; auto.
Qed.

Lemma sendMessage_frame chat_sendMessage JSON_parse
    (st : State) (sessionId : string) (message : option string) :
  let r := sendMessage chat_sendMessage JSON_parse st sessionId message in
  sessions (state_after r) = sessions st /\
  (forall l, is_Some (heap st !! l) -> is_Some (heap (state_after r) !! l)) /\
  (forall l session,
     sessions st !! sessionId = Some session ->
     l <> accumulatedFormData session -> is_Some (heap st !! l) ->
     heap (state_after r) !! l = heap st !! l).
Proof.
  intros r. subst r. unfold sendMessage.
  destruct (sessions st !! sessionId) as [session|] eqn:Hs; [|simpl; auto].
  destruct (AIService.outcome _) as [error|response]; [simpl; auto|].
  pose proof (accumulator_frame st session response) as H. cbv zeta in H.
  destruct (accumulator st session response) as [st' reply].
  simpl in *. destruct H as (H1 & H2 & H3 & _).
  split; [assumption|]. split; [assumption|].
  intros l s [= <-]. apply H2.
Qed.

Lemma heap_wf_empty : heap_wf empty.
Proof.
  split.
  - intros k s H. change (sessions empty) with (∅ : gmap string Session) in H.
    now rewrite lookup_empty in H.
  - intros k1 k2 s1 s2 H. change (sessions empty) with (∅ : gmap string Session) in H.
    now rewrite lookup_empty in H.
Qed.

Lemma heap_wf_subset (st st' : State) :
  heap_wf st ->
  (forall k s, sessions st' !! k = Some s -> sessions st !! k = Some s) ->
  (forall l, is_Some (heap st !! l) -> is_Some (heap st' !! l)) ->
  heap_wf st'.
Proof.
  intros [Hlive Hinj] Hsub Hheap. split.
  - intros k s Hs. apply Hheap. eapply Hlive. eauto.
  - intros k1 k2 s1 s2 H1 H2. eapply Hinj; eauto.
Qed.

Lemma heap_wf_createSession (st : State) (schema0 : JsValue) (uuid : string)
    (newChat : ChatHandle) (now : Z) :
  heap_wf st -> heap_wf (createSession st schema0 uuid newChat now).1.
Proof.
  intros Hwf. unfold createSession.
  destruct (negb (AIService.validateSchema schema0)); [exact Hwf|]. simpl.
  destruct Hwf as [Hlive Hinj].
  pose proof (is_fresh (dom (heap st))) as Hfresh.
  set (data := fresh (dom (heap st))) in *.
  apply not_elem_of_dom in Hfresh.
  assert (forall k s, sessions st !! k = Some s -> accumulatedFormData s <> data)
    as Hold.
  { intros k s Hs Heq. destruct (Hlive k s Hs) as [x Hx]. congruence. }
  split; simpl.
  - intros k s Hs. destruct (decide (uuid = k)) as [->|Hne].
    + rewrite lookup_insert_eq in Hs. injection Hs as <-. simpl.
      rewrite lookup_insert_eq. eauto.
    + rewrite lookup_insert_ne in Hs by assumption.
      rewrite lookup_insert_ne by (apply not_eq_sym; eauto). eauto.
  - intros k1 k2 s1 s2 H1 H2 Heq.
    destruct (decide (k1 = uuid)) as [->|Hn1], (decide (k2 = uuid)) as [->|Hn2];
      try reflexivity.
    + rewrite lookup_insert_eq in H1. rewrite lookup_insert_ne in H2 by congruence.
      injection H1 as <-. simpl in Heq. symmetry in Heq.
      now destruct (Hold k2 s2 H2).
    + rewrite lookup_insert_eq in H2. rewrite lookup_insert_ne in H1 by congruence.
      injection H2 as <-. simpl in Heq. now destruct (Hold k1 s1 H1).
    + rewrite lookup_insert_ne in H1, H2 by congruence. eauto.
Qed.

(** Every operation of the store keeps the accumulated-form-data objects
    of distinct sessions distinct, and keeps every reference live. *)
Theorem heap_wf_preserved (st : State) :
  heap_wf st ->
  (forall schema0 uuid newChat now,
     heap_wf (createSession st schema0 uuid newChat now).1) /\
  (forall chat_sendMessage JSON_parse sessionId message,
     heap_wf
       (state_after (sendMessage chat_sendMessage JSON_parse st sessionId message))) /\
  (forall sessionId, heap_wf (deleteSession st sessionId).1) /\
  (forall maxAgeMinutes now, heap_wf (cleanupExpiredSessions st maxAgeMinutes now).1).
Proof.
  intros Hwf. split; [|split; [|split]].
  - intros. now apply heap_wf_createSession.
  - intros chat_sendMessage JSON_parse sessionId message.
    destruct (sendMessage_frame chat_sendMessage JSON_parse st sessionId message)
      as (Hs & Hmono & _).
    apply (heap_wf_subset st); [assumption| |assumption].
    intros k s. now rewrite Hs.
  - intros sessionId. apply (heap_wf_subset st); [assumption| |auto].
    intros k s H. simpl in H. now apply lookup_delete_Some in H.
  - intros maxAgeMinutes now. apply (heap_wf_subset st); [assumption| |auto].
    intros k s H. rewrite cleanup_lookup in H.
    destruct (sessions st !! k) as [s'|]; [|discriminate].
    now destruct (expired _ _ s').
Qed.

(** A message sent in one session never changes the accumulated form data
    of another session. *)
Theorem sendMessage_isolation chat_sendMessage JSON_parse
    (st : State) (sessionId other : string) (message : option string) :
  heap_wf st -> other <> sessionId ->
  accumulatedOf
    (state_after (sendMessage chat_sendMessage JSON_parse st sessionId message)) other
  = accumulatedOf st other.
Proof.
  intros [Hlive Hinj] Hne.
  destruct (sendMessage_frame chat_sendMessage JSON_parse st sessionId message)
    as (Hs & _ & Hframe).
  unfold accumulatedOf. rewrite Hs.
  destruct (sessions st !! other) as [so|] eqn:Ho; [|reflexivity].
  destruct (sessions st !! sessionId) as [session|] eqn:Hsid.
  - unfold deref. rewrite (Hframe _ session eq_refl); eauto.
  - unfold sendMessage. now rewrite Hsid.
Qed.

(** The [form_data] object of a reply is the reply's own: nothing a caller
    assigns through it reaches the accumulated form data of any session. *)
Theorem reply_is_private chat_sendMessage JSON_parse
    (st : State) (sessionId : string) (message : option string)
    (ai_message : option string) (copy : loc) (anySession k v : string) :
  heap_wf st ->
  let r := sendMessage chat_sendMessage JSON_parse st sessionId message in
  outcome r = inr (Accumulated ai_message copy) ->
  accumulatedOf (assignThrough (state_after r) copy k v) anySession
  = accumulatedOf (state_after r) anySession.
Proof.
  intros [Hlive Hinj] r Hout. subst r. unfold sendMessage in *.
  destruct (sessions st !! sessionId) as [session|] eqn:Hsid; [|discriminate].
  destruct (AIService.outcome _) as [error|response]; [discriminate|].
  pose proof (accumulator_frame st session response) as H. cbv zeta in H.
  destruct (accumulator st session response) as [st' reply].
  simpl in *. injection Hout as ->.
  destruct H as (Hs & _ & _ & Hne & Hnone & _).
  unfold accumulatedOf, assignThrough, deref. simpl. rewrite Hs.
  destruct (sessions st !! anySession) as [sa|] eqn:Ha; [|reflexivity].
  rewrite lookup_insert_ne; [reflexivity|].
  intros Heq. destruct (Hlive _ _ Ha) as [x Hx]. rewrite <- Heq in Hx. congruence.
Qed.

End Isolation.

(** ** What a turn does to the accumulated form data *)

Section Turns.

Import SessionService.

Variable chat_sendMessage : ChatHandle -> string -> ChatReply.
Variable JSON_parse : string -> option TurnResult.

(** [Object.assign]: every own property of the source except
    ["__proto__"] overwrites or extends the target. *)
Lemma assign_lookup (target source : gmap string string) (k : string) :
  Js.assign target source !! k
  = if decide (k = "__proto__") then target !! k
    else overwrite (source !! k) (target !! k).
Proof.
  unfold Js.assign.
  apply (map_fold_weak_ind
           (fun (r source : gmap string string) =>
              r !! k = if decide (k = "__proto__") then target !! k
                       else overwrite (source !! k) (target !! k))).
  - rewrite lookup_empty. now case_decide.
  - intros i x m r Hi IH. rewrite set_lookup, IH.
    destruct (decide (i = k)) as [->|Hne].
    + rewrite lookup_insert_eq.
      destruct (decide (k = "__proto__")) as [->|Hp].
      * rewrite decide_False by tauto. reflexivity.
      * rewrite decide_True by tauto. reflexivity.
    + rewrite lookup_insert_ne by assumption.
      rewrite decide_False by tauto. reflexivity.
Qed.

Lemma accumulator_object (st : State) (session : Session)
    (ai_message : option string) (props : gmap string string) :
  let target := accumulatedFormData session in
  let merged := Js.assign (deref (heap st) target) props in
  exists st' copy,
    accumulator st session (Structured ai_message (FormDataObject props))
    = (st', Accumulated ai_message copy) /\
    sessions st' = sessions st /\
    deref (heap st') copy = merged /\ deref (heap st') target = merged.
Proof.
  intros target merged. unfold accumulator. fold target. fold merged.
  pose proof (store_and_copy_spec st target merged) as H.
  destruct (store_and_copy st target merged) as [st' copy].
  destruct H as (Hs & _ & _ & Hc & Ht & _).
  exists st', copy. unfold deref. rewrite Hc, Ht. auto.
Qed.

(** A failed [sendMessage] changes nothing in the store, and its error is
    "Session not found" (for an unknown identifier) or one of the three
    errors of the gateway (for a known one). *)
Theorem sendMessage_failure (st : State) (sessionId : string)
    (message : option string) (error : Thrown) :
  outcome (sendMessage chat_sendMessage JSON_parse st sessionId message) = inl error ->
  state_after (sendMessage chat_sendMessage JSON_parse st sessionId message) = st /\
  ((error = ThrownError "Session not found" /\ hasSession st sessionId = false) \/
   (gateway_error error /\ hasSession st sessionId = true)).
Proof.
  unfold sendMessage. destruct (sessions st !! sessionId) as [session|] eqn:Hs.
  - destruct (AIService.outcome _) as [e|response] eqn:Hr.
    + simpl. intros [= <-]. split; [reflexivity|]. right. split.
      * eapply sendMessage_outcome_error. exact Hr.
      * apply hasSession_true. eauto.
    + destruct (accumulator st session response). discriminate.
  - simpl. intros [= <-]. split; [reflexivity|]. left. split; [reflexivity|].
    now apply hasSession_false.
Qed.

(** A reply of the remote conversation that does not parse still answers
    the turn: the raw text comes back as [ai_message], together with a
    copy of the accumulated form data, which is left as it was. *)
Theorem sendMessage_unparsable_reply (st : State) (sessionId : string)
    (session : Session) (m text : string) :
  sessions st !! sessionId = Some session ->
  m <> "" -> text <> "" ->
  chat_sendMessage (chat session) (JsString.trim m) = ChatResolve (Some text) ->
  JSON_parse text = None ->
  let r := sendMessage chat_sendMessage JSON_parse st sessionId (Some m) in
  exists copy,
    outcome r = inr (Accumulated (Some text) copy) /\
    accumulatedOf (state_after r) sessionId = accumulatedOf st sessionId /\
    Some (deref (heap (state_after r)) copy) = accumulatedOf st sessionId.
Proof.
  intros Hs Hm Ht Hres Hparse r. subst r. unfold sendMessage. rewrite Hs.
  rewrite (sendMessage_unparsable _ _ _ m text Hm Ht Hres Hparse).
  simpl AIService.outcome.
  destruct (accumulator_array st session (Some text) [])
    as (st' & copy & Heq & Hsess & _ & _ & Hcopy & Htarget & _).
  rewrite Heq. simpl. exists copy. unfold accumulatedOf.
  rewrite Hsess, Hs, Htarget, Hcopy. auto.
Qed.

(** The legacy shape: a flat [form_data] object is merged key by key into
    the accumulated form data (the incoming value wins), and the reply
    carries a copy of the result. *)
Theorem sendMessage_legacy_merge (st : State) (sessionId : string)
    (session : Session) (message : option string)
    (ai_message : option string) (props : gmap string string) :
  sessions st !! sessionId = Some session ->
  AIService.outcome
    (AIService.sendMessage chat_sendMessage JSON_parse (Some (chat session)) message)
  = inr (Structured ai_message (FormDataObject props)) ->
  let before := deref (heap st) (accumulatedFormData session) in
  let r := sendMessage chat_sendMessage JSON_parse st sessionId message in
  exists copy merged,
    outcome r = inr (Accumulated ai_message copy) /\
    deref (heap (state_after r)) copy = merged /\
    accumulatedOf (state_after r) sessionId = Some merged /\
    (forall k, k <> "__proto__" ->
       merged !! k = overwrite (props !! k) (before !! k)) /\
    merged !! "__proto__" = before !! "__proto__".
Proof.
  intros Hs Hr before r. subst r. unfold sendMessage. rewrite Hs, Hr.
  destruct (accumulator_object st session ai_message props)
    as (st' & copy & Heq & Hsess & Hcopy & Htarget).
  rewrite Heq. simpl. exists copy, (Js.assign before props).
  unfold accumulatedOf. rewrite Hsess, Hs, Htarget. fold before.
  repeat split; auto.
  - intros k Hk. rewrite assign_lookup. now rewrite decide_False.
  - rewrite assign_lookup. now rewrite decide_True.
Qed.

(** No turn ever removes a key from the accumulated form data of its
    session. *)
Theorem accumulated_keys_kept (st : State) (sessionId : string)
    (message : option string) (before : gmap string string) :
  accumulatedOf st sessionId = Some before ->
  exists after,
    accumulatedOf
      (state_after (sendMessage chat_sendMessage JSON_parse st sessionId message))
      sessionId = Some after /\
    forall k, is_Some (before !! k) -> is_Some (after !! k).
Proof.
  unfold accumulatedOf at 1.
  destruct (sessions st !! sessionId) as [session|] eqn:Hs; [|discriminate].
  intros [= <-]. unfold sendMessage. rewrite Hs.
  destruct (AIService.outcome _) as [e|response].
  { simpl. unfold accumulatedOf. rewrite Hs. eauto. }
  destruct response as [s|ai_message [fields|props|]].
  - simpl. unfold accumulatedOf. rewrite Hs. eauto.
  - destruct (accumulator_array st session ai_message fields)
      as (st' & copy & Heq & Hsess & _ & _ & _ & Htarget & _).
    rewrite Heq. simpl. unfold accumulatedOf. rewrite Hsess, Hs, Htarget.
    eexists. split; [reflexivity|]. intros k [x Hx].
    rewrite accumulate_lookup, Hx. case_decide; [eauto|].
    destruct (assigned fields k); simpl; eauto.
  - destruct (accumulator_object st session ai_message props)
      as (st' & copy & Heq & Hsess & _ & Htarget).
    rewrite Heq. simpl. unfold accumulatedOf. rewrite Hsess, Hs, Htarget.
    eexists. split; [reflexivity|]. intros k [x Hx].
    rewrite assign_lookup, Hx. case_decide; [eauto|].
    destruct (props !! k); simpl; eauto.
  - simpl. unfold accumulatedOf. rewrite Hs. eauto.
Qed.

Lemma gives_In (field : Field) (k v : string) :
  gives field k = Some v ->
  k <> "" /\ v <> "" /\ field = mkField (Some k) (Some v).
Proof.
  unfold gives. destruct field as [[k'|] [v'|]]; simpl; try discriminate.
  case_decide as H; [|discriminate]. intros [= <-].
  destruct H as (-> & Hk & Hv). auto.
Qed.

Lemma assigned_In (fields : list Field) (k v : string) :
  assigned fields k = Some v ->
  k <> "" /\ v <> "" /\ In (mkField (Some k) (Some v)) fields.
Proof.
  induction fields as [|field rest IH]; [discriminate|]. simpl.
  destruct (assigned rest k) as [v'|].
  - intros [= <-]. destruct (IH eq_refl) as (? & ? & ?). auto.
  - intros H. apply gives_In in H as (? & ? & ->). auto.
Qed.

(** The array shape never invents data: after the turn, every entry of
    the accumulated form data was there before or is the key and value,
    both non-empty, of one of the records of the turn. *)
Theorem accumulated_from_records (st : State) (sessionId : string)
    (session : Session) (message : option string)
    (ai_message : option string) (fields : list Field) :
  sessions st !! sessionId = Some session ->
  AIService.outcome
    (AIService.sendMessage chat_sendMessage JSON_parse (Some (chat session)) message)
  = inr (Structured ai_message (FormDataArray fields)) ->
  let before := deref (heap st) (accumulatedFormData session) in
  let r := sendMessage chat_sendMessage JSON_parse st sessionId message in
  exists after,
    accumulatedOf (state_after r) sessionId = Some after /\
    from_records before after fields.
Proof.
  intros Hs Hr before r. subst r. unfold sendMessage. rewrite Hs, Hr.
  destruct (accumulator_array st session ai_message fields)
    as (st' & copy & Heq & Hsess & _ & _ & _ & Htarget & _).
  rewrite Heq. simpl. unfold accumulatedOf. rewrite Hsess, Hs, Htarget.
  eexists. split; [reflexivity|]. fold before.
  intros k v. rewrite accumulate_lookup. case_decide; [auto|].
  destruct (assigned fields k) as [v'|] eqn:Ha; simpl; [|auto].
  intros [= <-]. right. now apply assigned_In.
Qed.

End Turns.

(** ** Stored schemas *)

Section Schemas.

Import SessionService.

Lemma schemas_valid_empty : schemas_valid empty.
Proof.
  intros k s H. change (sessions empty) with (∅ : gmap string Session) in H.
  now rewrite lookup_empty in H.
Qed.

(** The store never holds a session whose schema the validator rejects:
    every operation keeps this. *)
Theorem schemas_valid_preserved (st : State) :
  schemas_valid st ->
  (forall schema0 uuid newChat now,
     schemas_valid (createSession st schema0 uuid newChat now).1) /\
  (forall chat_sendMessage JSON_parse sessionId message,
     schemas_valid
       (state_after (sendMessage chat_sendMessage JSON_parse st sessionId message))) /\
  (forall sessionId, schemas_valid (deleteSession st sessionId).1) /\
  (forall maxAgeMinutes now,
     schemas_valid (cleanupExpiredSessions st maxAgeMinutes now).1).
Proof.
  intros Hv. split; [|split; [|split]].
  - intros schema0 uuid newChat now k s. unfold createSession.
    destruct (AIService.validateSchema schema0) eqn:Hok; simpl; [|apply Hv].
    destruct (decide (uuid = k)) as [->|Hne].
    + rewrite lookup_insert_eq. now intros [= <-].
    + rewrite lookup_insert_ne by assumption. apply Hv.
  - intros chat_sendMessage JSON_parse sessionId message k s.
    rewrite sendMessage_sessions. apply Hv.
  - intros sessionId k s H. simpl in H. apply lookup_delete_Some in H as [_ H].
    eapply Hv. eauto.
  - intros maxAgeMinutes now k s H. rewrite cleanup_lookup in H.
    destruct (sessions st !! k) as [s'|] eqn:Hk; [|discriminate].
    destruct (expired _ _ s'); [discriminate|]. injection H as <-. eapply Hv. eauto.
Qed.

End Schemas.

(** ** More on the expiry sweep *)

Section Sweep.

Import SessionService.







End Sweep.

(** ** The service singletons *)

Section Singletons.

Import Singleton.

Lemma getAIService_cached (env_key : option string) (sv : Services)
    (ai : AIService.Instance) :
  aiServiceInstance sv = Some ai -> getAIService env_key sv = (sv, inr ai).
Proof. intros H. unfold getAIService. now rewrite H. Qed.

Lemma getAIService_fresh (env_key : option string) (sv : Services) :
  aiServiceInstance sv = None ->
  getAIService env_key sv
  = match env_key with
    | Some k =>
        if negb (JsString.truthy k)
        then (sv, inl (ThrownError "GEMINI_API_KEY environment variable is required"))
        else if String.eqb k "YOUR_API_KEY"
             then (sv, inl (ThrownError "Valid Google AI API key is required"))
             else (mkServices (Some (AIService.mkInstance k))
                     (sessionServiceInstance sv),
                   inr (AIService.mkInstance k))
    | None => (sv, inl (ThrownError "GEMINI_API_KEY environment variable is required"))
    end.
Proof.
  intros H. unfold getAIService. rewrite H.
  destruct env_key as [k|]; [|reflexivity]. simpl.
  destruct (JsString.truthy k); simpl; [|reflexivity].
  now destruct (String.eqb k "YOUR_API_KEY").
Qed.

Lemma getAIService_result (env_key : option string) (sv sv' : Services)
    (ai : AIService.Instance) :
  getAIService env_key sv = (sv', inr ai) ->
  aiServiceInstance sv' = Some ai /\
  sessionServiceInstance sv' = sessionServiceInstance sv.
Proof.
  destruct (aiServiceInstance sv) as [ai0|] eqn:Hai.
  - rewrite (getAIService_cached _ _ _ Hai). intros [= <- <-]. auto.
  - rewrite (getAIService_fresh _ _ Hai). destruct env_key as [k|]; [|discriminate].
    destruct (negb (JsString.truthy k)); [discriminate|].
    destruct (String.eqb k "YOUR_API_KEY"); [discriminate|].
    intros [= <- <-]. auto.
Qed.

Lemma getAIService_error (env_key : option string) (sv sv' : Services)
    (error : Thrown) :
  getAIService env_key sv = (sv', inl error) ->
  sv' = sv /\ aiServiceInstance sv = None.
Proof.
  destruct (aiServiceInstance sv) as [ai0|] eqn:Hai.
  - rewrite (getAIService_cached _ _ _ Hai). discriminate.
  - rewrite (getAIService_fresh _ _ Hai). destruct env_key as [k|].
    + destruct (negb (JsString.truthy k)); [now intros [= <- _]|].
      destruct (String.eqb k "YOUR_API_KEY"); [now intros [= <- _]|discriminate].
    + now intros [= <- _].
Qed.

(** Once [getSessionService] has returned a store, the module holds it
    and every later call returns that same store without changing
    anything, whatever the environment has become; a store that had to be
    created is empty, and both services are then ready. *)
Theorem getSessionService_singleton (env_key : option string) (sv sv' : Services)
    (store : SessionService.State) :
  getSessionService env_key sv = (sv', inr store) ->
  sessionServiceInstance sv' = Some store /\
  (forall env_key', getSessionService env_key' sv' = (sv', inr store)) /\
  (sessionServiceInstance sv = None ->
   store = SessionService.empty /\ areServicesReady sv' = true).
Proof.
  unfold getSessionService at 1.
  destruct (sessionServiceInstance sv) as [store0|] eqn:Hss.
  - intros [= <- <-]. split; [assumption|]. split; [|discriminate].
    intros env_key'. unfold getSessionService. now rewrite Hss.
  - destruct (getAIService env_key sv) as [sv1 [error|ai]] eqn:Hai; [discriminate|].
    intros [= <- <-]. apply getAIService_result in Hai as [Hai _].
    split; [reflexivity|]. split.
    + intros env_key'. reflexivity.
    + intros _. split; [reflexivity|]. unfold areServicesReady. simpl. now rewrite Hai.
Qed.

(** With no service created yet, [getSessionService] needs the API key of
    the environment: without one (absent or empty) it throws
    "GEMINI_API_KEY environment variable is required", with the
    placeholder "YOUR_API_KEY" it throws "Valid Google AI API key is
    required", in both cases creating nothing; with any other key it
    creates both services, the store being empty. *)
Theorem getSessionService_needs_key (env_key : option string) (sv : Services) :
  aiServiceInstance sv = None -> sessionServiceInstance sv = None ->
  (env_key = None \/ env_key = Some "" ->
   getSessionService env_key sv
   = (sv, inl (ThrownError "GEMINI_API_KEY environment variable is required"))) /\
  (env_key = Some "YOUR_API_KEY" ->
   getSessionService env_key sv
   = (sv, inl (ThrownError "Valid Google AI API key is required"))) /\
  (forall k, env_key = Some k -> k <> "" -> k <> "YOUR_API_KEY" ->
   getSessionService env_key sv
   = (mkServices (Some (AIService.mkInstance k)) (Some SessionService.empty),
      inr SessionService.empty)).
Proof.
  intros Hai Hss. unfold getSessionService. rewrite Hss, (getAIService_fresh _ _ Hai).
  split; [|split].
  - intros [-> | ->]; reflexivity.
  - intros ->. reflexivity.
  - intros k -> Hk Hph. rewrite (truthy_true k Hk). simpl.
    apply String.eqb_neq in Hph. rewrite Hph. reflexivity.
Qed.

(** [initializeServices] reports exactly whether both services are ready
    afterwards; when it reports failure it has changed nothing; running it
    again gives the same result and state; and after [resetServices] the
    services are not ready. *)
Theorem initializeServices_spec (env_key : option string) (sv : Services) :
  let r := initializeServices env_key sv in
  r.2 = areServicesReady r.1 /\
  (r.2 = false -> r.1 = sv) /\
  initializeServices env_key r.1 = r /\
  areServicesReady (resetServices r.1) = false.
Proof.
  assert (forall sv0, areServicesReady sv0 = true ->
                      initializeServices env_key sv0 = (sv0, true)) as Hready.
  { intros sv0. unfold areServicesReady, initializeServices.
    destruct (aiServiceInstance sv0) as [ai|] eqn:Hai; [|discriminate].
    destruct (sessionServiceInstance sv0) as [ss|] eqn:Hss; [|discriminate].
    intros _. rewrite (getAIService_cached _ _ _ Hai).
    unfold getSessionService. now rewrite Hss. }
  intros r. subst r. split; [|split; [|split; [|reflexivity]]].
  - unfold initializeServices.
    destruct (getAIService env_key sv) as [sv1 [error|ai]] eqn:Hai.
    + apply getAIService_error in Hai as [-> Hnone]. simpl.
      unfold areServicesReady. now rewrite Hnone.
    + apply getAIService_result in Hai as [Hai Hsame].
      unfold getSessionService, areServicesReady.
      destruct (sessionServiceInstance sv1) as [ss|] eqn:Hss.
      * simpl. now rewrite Hai, Hss.
      * rewrite (getAIService_cached _ _ _ Hai). simpl. now rewrite Hai.
  - unfold initializeServices.
    destruct (getAIService env_key sv) as [sv1 [error|ai]] eqn:Hai.
    + apply getAIService_error in Hai as [-> _]. reflexivity.
    + apply getAIService_result in Hai as [Hai _].
      unfold getSessionService.
      destruct (sessionServiceInstance sv1) as [ss|]; [discriminate|].
      rewrite (getAIService_cached _ _ _ Hai). discriminate.
  - destruct (initializeServices env_key sv) as [sv2 b] eqn:Hinit.
    assert (b = areServicesReady sv2 /\ (b = false -> sv2 = sv)) as [Hb Hsame].
    { unfold initializeServices in Hinit.
      destruct (getAIService env_key sv) as [sv1 [error|ai]] eqn:Hai.
      - apply getAIService_error in Hai as [-> Hnone]. injection Hinit as <- <-.
        unfold areServicesReady. rewrite Hnone. auto.
      - apply getAIService_result in Hai as [Hai _].
        unfold getSessionService in Hinit.
        destruct (sessionServiceInstance sv1) as [ss|] eqn:Hss.
        + injection Hinit as <- <-. unfold areServicesReady.
          rewrite Hai, Hss. split; [reflexivity|discriminate].
        + rewrite (getAIService_cached _ _ _ Hai) in Hinit.
          injection Hinit as <- <-. unfold areServicesReady. simpl.
          rewrite Hai. split; [reflexivity|discriminate]. }
    simpl. destruct b.
    + apply Hready. now symmetry.
    + pose proof (Hsame eq_refl) as ->. exact Hinit.
Qed.

End Singletons.

(** ** The socket event handlers *)

Section HandlerFacts.

Import SessionService Server.

Variable typeErrorMessage : JsValue -> string -> string.
Variable chat_sendMessage : ChatHandle -> string -> ChatReply.
Variable JSON_parse : string -> option TurnResult.

Lemma prop_missing (data : JsValue) (k : string) :
  data = JsUndefined \/ data = JsNull ->
  prop typeErrorMessage data k = inl (ThrownError (typeErrorMessage data k)).
Proof. intros [-> | ->]; reflexivity. Qed.

Lemma prop_present (data : JsValue) (k : string) :
  data <> JsUndefined -> data <> JsNull ->
  prop typeErrorMessage data k
  = inr (match data with JsObject props => Js.get props k | _ => JsUndefined end).
Proof. intros H1 H2. destruct data; try reflexivity; contradiction. Qed.

(** "create-session" emits exactly one event.  Without a payload
    ([undefined] or [null]) it is [error] with the engine's [TypeError]
    text and the store is unchanged.  With a payload whose [schema] is
    well formed it is [session-created], with the new identifier (now in
    the store), the greeting and an empty list of fields.  With any other
    payload it is [error] "Invalid schema format", the store unchanged. *)
Theorem onCreateSession_spec (st : State) (data : JsValue)
    (uuid : string) (newChat : ChatHandle) (now : Z) :
  let r := onCreateSession typeErrorMessage st data uuid newChat now in
  let schema0 :=
    match data with JsObject props => Js.get props "schema" | _ => JsUndefined end in
  (data = JsUndefined \/ data = JsNull ->
   r = (st, [ErrorEvent (Some (typeErrorMessage data "schema"))])) /\
  (data <> JsUndefined -> data <> JsNull -> well_formed_schema schema0 ->
   r.2 = [SessionCreated uuid
            (Some "Hello! I'm here to help you fill out this form. Let's get started!")
            (PayloadOr (FormDataArray []))] /\
   hasSession r.1 uuid = true) /\
  (data <> JsUndefined -> data <> JsNull -> ~ well_formed_schema schema0 ->
   r = (st, [ErrorEvent (Some "Invalid schema format")])).
Proof.
  intros r schema0. subst r. unfold onCreateSession. split; [|split].
  - intros H. now rewrite (prop_missing data "schema" H).
  - intros H1 H2 Hwf. rewrite (prop_present data "schema" H1 H2). fold schema0.
    apply validateSchema_true in Hwf. unfold createSession. rewrite Hwf. simpl.
    split; [reflexivity|]. apply hasSession_true. simpl.
    rewrite lookup_insert_eq. eauto.
  - intros H1 H2 Hwf. rewrite (prop_present data "schema" H1 H2). fold schema0.
    rewrite <- validateSchema_true in Hwf. apply not_true_iff_false in Hwf.
    unfold createSession. now rewrite Hwf.
Qed.


(** "end-session" emits exactly one event.  Without a payload
    ([undefined] or [null]) it is [error] with the engine's [TypeError]
    text.  For the identifier of an existing session it is
    [session-ended], and the session is gone afterwards, so that ending it
    again emits [error] "Session not found".  For any other payload it is
    [error] "Session not found".  Only the first case and the last leave
    the store unchanged. *)
Theorem onEndSession_spec (st : State) (data : JsValue) :
  let r := onEndSession typeErrorMessage st data in
  (data = JsUndefined \/ data = JsNull ->
   r = (st, [ErrorEvent (Some (typeErrorMessage data "sessionId"))])) /\
  (forall props sessionId,
     data = JsObject props ->
     props !! "sessionId" = Some (JsString sessionId) ->
     hasSession st sessionId = true ->
     r.2 = [SessionEnded] /\
     hasSession r.1 sessionId = false /\
     onEndSession typeErrorMessage r.1 data
     = (r.1, [ErrorEvent (Some "Session not found")])) /\
  (data <> JsUndefined -> data <> JsNull ->
   (forall props sessionId,
      data = JsObject props ->
      props !! "sessionId" = Some (JsString sessionId) ->
      hasSession st sessionId = false) ->
   r = (st, [ErrorEvent (Some "Session not found")])).
Proof.
  assert (forall st0 key, hasSession st0 key = false ->
            (let '(st', deleted) := deleteSession st0 key in
             if deleted then (st', [SessionEnded])
             else (st', [ErrorEvent (Some "Session not found")]))
            = (st0, [ErrorEvent (Some "Session not found")])) as Habsent.
  { intros st0 key H. unfold deleteSession. fold (hasSession st0 key).
    rewrite H. apply hasSession_false in H. rewrite delete_id by assumption.
    now destruct st0. }
  assert (forall st0 props key,
            props !! "sessionId" = Some (JsString key) ->
            onEndSession typeErrorMessage st0 (JsObject props)
            = if hasSession st0 key
              then (mkState (delete key (sessions st0)) (heap st0), [SessionEnded])
              else (mkState (delete key (sessions st0)) (heap st0),
                    [ErrorEvent (Some "Session not found")])) as Hkeyed.
  { intros st0 props key Hprops. unfold onEndSession. simpl. unfold Js.get.
    rewrite Hprops. reflexivity. }
  intros r. subst r. split; [|split].
  - intros H. unfold onEndSession. now rewrite (prop_missing data "sessionId" H).
  - intros props sessionId -> Hprops Hhas.
    rewrite (Hkeyed st props sessionId Hprops), Hhas. simpl.
    assert (hasSession (mkState (delete sessionId (sessions st)) (heap st)) sessionId
            = false) as Hgone.
    { apply hasSession_false. simpl. apply lookup_delete_eq. }
    split; [reflexivity|]. split; [exact Hgone|].
    rewrite (Hkeyed _ props sessionId Hprops), Hgone. simpl.
    now rewrite delete_delete_eq.
  - unfold onEndSession. intros H1 H2 Hnone. rewrite (prop_present data "sessionId" H1 H2).
    destruct (as_key _) as [key|] eqn:Hkey; [|reflexivity].
    apply Habsent.
    destruct data as [| |b|q|s0|items|props]; try discriminate Hkey.
    apply (Hnone props key eq_refl). unfold Js.get in Hkey.
    destruct (props !! "sessionId") as [[| |b|q|s0|items|props']|];
      try discriminate Hkey. now injection Hkey as ->.
Qed.

End HandlerFacts.

(** ** The properties above, on the scenario *)

Lemma heap_wf_two_sessions : heap_wf two_sessions.
Proof. do 2 apply heap_wf_createSession. apply heap_wf_empty. Qed.

Lemma sendMessage_throws_gateway_errors_witness :
  gateway_error (ThrownError "Failed to get AI response. Please try again.").
Proof.
  apply (sendMessage_throws_gateway_errors echo_chat example_parse (Some 7%nat) None).
  reflexivity.
Defined.

Lemma sendMessage_rejection_witness :
  AIService.outcome
    (AIService.sendMessage quota_chat example_parse (Some 7%nat) (Some " hi "))
  = inl (ThrownError "AI service quota exceeded. Please try again later.").
Proof.
  assert (" hi " <> "") as Hm by discriminate.
  destruct (sendMessage_rejection quota_chat example_parse 7%nat " hi "
              "Resource quota exhausted" Hm eq_refl) as (_ & H & _).
  apply H. exists "Resource ", " exhausted". reflexivity.
Defined.

Lemma sendMessage_no_response_witness :
  AIService.sendMessage silent_chat example_parse (Some 7%nat) (Some "hi")
  = AIService.mkSent (Some "hi")
      (inl (ThrownError "Failed to get AI response. Please try again.")).
Proof.
  assert ("hi" <> "") as Hm by discriminate.
  exact (sendMessage_no_response silent_chat example_parse 7%nat "hi" None
           Hm eq_refl (or_introl eq_refl)).
Defined.

Lemma sendMessage_unparsable_reply_witness :
  exists copy,
    SessionService.outcome (example_send example_store (Some "not json"))
    = inr (SessionService.Accumulated (Some "not json") copy) /\
    SessionService.accumulatedOf
      (SessionService.state_after (example_send example_store (Some "not json"))) "s1"
    = SessionService.accumulatedOf example_store "s1".
Proof.
  assert ("not json" <> "") as Hm by discriminate.
  destruct (sendMessage_unparsable_reply echo_chat example_parse example_store "s1"
              (SessionService.mkSession "s1" example_schema 7%nat 1000 0%nat)
              "not json" "not json") as (copy & H1 & H2 & _);
    try assumption; try (vm_compute; reflexivity).
  exists copy. split; assumption.
Defined.


Lemma heap_wf_preserved_witness : heap_wf example_store.
Proof.
  apply (heap_wf_preserved SessionService.empty heap_wf_empty).
Defined.

Lemma sendMessage_isolation_witness :
  SessionService.accumulatedOf
    (SessionService.state_after (example_send two_sessions (Some "a is 1"))) "s2"
  = SessionService.accumulatedOf two_sessions "s2".
Proof.
  apply (sendMessage_isolation echo_chat example_parse two_sessions "s1" "s2").
  - exact heap_wf_two_sessions.
  - discriminate.
Defined.

Lemma reply_is_private_witness :
  let st := SessionService.state_after (example_send two_sessions (Some "a is 1")) in
  SessionService.accumulatedOf (SessionService.assignThrough st 2%nat "a" "2") "s1"
  = SessionService.accumulatedOf st "s1".
Proof.
  apply (reply_is_private echo_chat example_parse two_sessions "s1" (Some "a is 1")
           (Some "ok") 2%nat "s1" "a" "2").
  - exact heap_wf_two_sessions.
  - vm_compute. reflexivity.
Defined.

Lemma sendMessage_failure_witness :
  SessionService.state_after (example_send example_store None) = example_store.
Proof.
  apply (sendMessage_failure echo_chat example_parse example_store "s1" None
           (ThrownError "Failed to get AI response. Please try again.")).
  vm_compute. reflexivity.
Defined.

Lemma sendMessage_legacy_merge_witness :
  exists copy (merged : gmap string string),
    SessionService.outcome
      (SessionService.sendMessage echo_chat legacy_parse example_store "s1" (Some "hi"))
    = inr (SessionService.Accumulated (Some "ok") copy) /\
    merged !! "b" = Some "3".
Proof.
  destruct (sendMessage_legacy_merge echo_chat legacy_parse example_store "s1"
              (SessionService.mkSession "s1" example_schema 7%nat 1000 0%nat)
              (Some "hi") (Some "ok") {[ "b" := "3" ]})
    as (copy & merged & H1 & _ & _ & H2 & _);
    try (vm_compute; reflexivity).
  exists copy, merged. split; [exact H1|].
  rewrite H2 by discriminate. vm_compute. reflexivity.
Defined.

Lemma accumulated_keys_kept_witness :
  let st := SessionService.state_after (example_send example_store (Some "a is 1")) in
  SessionService.accumulatedOf st "s1" = Some {[ "a" := "1" ]} /\
  exists after : gmap string string,
    SessionService.accumulatedOf
      (SessionService.state_after
         (SessionService.sendMessage echo_chat legacy_parse st "s1" (Some "hi")))
      "s1" = Some after /\
    is_Some (after !! "a").
Proof.
  assert (SessionService.accumulatedOf
            (SessionService.state_after (example_send example_store (Some "a is 1")))
            "s1" = Some {[ "a" := "1" ]}) as Hbefore by (vm_compute; reflexivity).
  split; [exact Hbefore|].
  destruct (accumulated_keys_kept echo_chat legacy_parse _ "s1" (Some "hi") _ Hbefore)
    as (after & H & Hkept).
  exists after. split; [exact H|]. apply Hkept. exists "1". reflexivity.
Defined.

Lemma accumulated_from_records_witness :
  exists after,
    SessionService.accumulatedOf
      (SessionService.state_after (example_send example_store (Some "a is 1"))) "s1"
    = Some after /\
    from_records ∅ after [mkField (Some "a") (Some "1")].
Proof.
  destruct (accumulated_from_records echo_chat example_parse example_store "s1"
              (SessionService.mkSession "s1" example_schema 7%nat 1000 0%nat)
              (Some "a is 1") (Some "ok") [mkField (Some "a") (Some "1")])
    as (after & H1 & H2); try (vm_compute; reflexivity).
  exists after. split; [exact H1|exact H2].
Defined.

Lemma schemas_valid_preserved_witness : schemas_valid example_store.
Proof.
  apply (schemas_valid_preserved SessionService.empty schemas_valid_empty).
Defined.



Lemma getSessionService_singleton_witness :
  Singleton.getSessionService None
    (Singleton.getSessionService (Some "key") Singleton.initial).1
  = ((Singleton.getSessionService (Some "key") Singleton.initial).1,
     inr SessionService.empty).
Proof.
  destruct (getSessionService_singleton (Some "key") Singleton.initial
              (Singleton.getSessionService (Some "key") Singleton.initial).1
              SessionService.empty eq_refl) as (_ & H & _).
  exact (H None).
Defined.

Lemma getSessionService_needs_key_witness :
  Singleton.getSessionService (Some "YOUR_API_KEY") Singleton.initial
  = (Singleton.initial, inl (ThrownError "Valid Google AI API key is required")).
Proof.
  destruct (getSessionService_needs_key (Some "YOUR_API_KEY") Singleton.initial
              eq_refl eq_refl) as (_ & H & _).
  apply H. reflexivity.
Defined.
